(** * NanoBananaEditor: the Gemini service adapter and the configuration check

    A shallow embedding of [GeminiService] (src/services/geminiService.ts) and
    of the standalone script that validates the [.env] file, followed by the
    properties of the specification that concern them.

    Conventions of the embedding.
    - A JavaScript string is a [string]: the sequence of bytes of its UTF-8
      encoding.  [includes], [startsWith], [split] and [trim] are written over
      that encoding.  [substring] and [length] count bytes where JavaScript
      counts UTF-16 code units: they agree on ASCII strings, and are used
      only for the shortened values that the service and the script print.
    - A field that the code tests before use ([a && a.b]) is an [option]; the
      value [undefined] is [None].  Apart from that a value has the type the
      TypeScript interfaces declare for it: a reply is an [APIResponse], the
      body of an error reply is read through the keys [callAPI] reads.
    - The methods of the service are given the configuration they read, an
      [APIConfig].  The object that [this.config] refers to lies on a heap;
      there a field holds a string or [undefined], since the constructor and
      [setConfig] copy whatever the partial configuration they are given
      holds, also a field present with the value [undefined].
    - [JSON.parse] and the network are parameters: the code is proved for
      every parser and every provider.
    - An [async] method is a function from the world before the call (console,
      requests sent so far) to its settlement (resolved or rejected) and the
      world after it.  The network is an oracle answering each request. *)

From Stdlib Require Import ZArith QArith Ascii String.
From stdpp Require Import base option list strings gmap pretty.

Local Open Scope string_scope.
Local Open Scope list_scope.

(** ** JavaScript strings *)

Module JS.

(** [!!s] for a string: the empty string is the only falsy one. *)
Definition truthy (s : string) : bool :=
  match s with
  | EmptyString => false
  | String _ _ => true
  end.

(** [s.startsWith(p)] *)
Definition startsWith (s p : string) : bool := String.prefix p s.

(** [s.includes(sub)]: [sub] occurs at some position of [s]. *)
Fixpoint includes (s sub : string) : bool :=
  String.prefix sub s ||
  match s with
  | EmptyString => false
  | String _ s' => includes s' sub
  end.

(** [s.split(sep)] for a separator of one character. *)
Fixpoint split (sep : ascii) (s : string) : list string :=
  match s with
  | EmptyString => [EmptyString]
  | String c s' =>
      if Ascii.eqb c sep then EmptyString :: split sep s'
      else match split sep s' with
           | h :: t => String c h :: t
           | [] => [String c EmptyString]
           end
  end.

(** [parts.join(sep)] *)
Definition join (sep : string) (parts : list string) : string :=
  String.concat sep parts.

(** [s.repeat(n)] *)
Fixpoint repeat (s : string) (n : nat) : string :=
  match n with
  | O => EmptyString
  | S n' => s +:+ repeat s n'
  end.

(** [s.substring(a, b)] with [a <= b] and [s.substring(a)], positions
    counted in bytes. *)
Definition substring (a b : nat) (s : string) : string :=
  String.substring a (b - a) s.
Definition substring_from (a : nat) (s : string) : string :=
  String.substring a (String.length s - a) s.

(** White space and line terminators of ECMAScript, which [trim] removes.
    One-byte ones: TAB, LF, VT, FF, CR, SP. *)
Definition ws1 (c : ascii) : bool :=
  match N_of_ascii c with
  | 9 | 10 | 11 | 12 | 13 | 32 => true
  | _ => false
  end%N.

(** U+00A0, encoded C2 A0. *)
Definition ws2 (c1 c2 : ascii) : bool :=
  match N_of_ascii c1, N_of_ascii c2 with
  | 194, 160 => true
  | _, _ => false
  end%N.

(** U+1680 (E1 9A 80), U+2000..U+200A (E2 80 80..8A), U+2028, U+2029,
    U+202F (E2 80 A8, A9, AF), U+205F (E2 81 9F), U+3000 (E3 80 80),
    U+FEFF (EF BB BF). *)
Definition ws3 (c1 c2 c3 : ascii) : bool :=
  match N_of_ascii c1, N_of_ascii c2, N_of_ascii c3 with
  | 225, 154, 128 => true
  | 226, 128, n => (128 <=? n)%N && (n <=? 138)%N
                   || (n =? 168)%N || (n =? 169)%N || (n =? 175)%N
  | 226, 129, 159 => true
  | 227, 128, 128 => true
  | 239, 187, 191 => true
  | _, _, _ => false
  end%N.

(** [s.trimStart()] *)
Fixpoint trimStart (s : string) : string :=
  match s with
  | String c1 s1 =>
      if ws1 c1 then trimStart s1
      else match s1 with
           | String c2 s2 =>
               if ws2 c1 c2 then trimStart s2
               else match s2 with
                    | String c3 s3 => if ws3 c1 c2 c3 then trimStart s3 else s
                    | EmptyString => s
                    end
           | EmptyString => s
           end
  | EmptyString => s
  end.

(** [s] consists of white space only: [s.trim()] is empty. *)
Definition blank (s : string) : bool := negb (truthy (trimStart s)).

(** [s.trimEnd()]: a suffix of white space is dropped. *)
Fixpoint trimEnd (s : string) : string :=
  match s with
  | EmptyString => EmptyString
  | String c s' => if blank s then EmptyString else String c (trimEnd s')
  end.

(** [s.trim()] *)
Definition trim (s : string) : string := trimEnd (trimStart s).

(** [s.toLowerCase()] on the letters A..Z; other bytes are kept. *)
Definition lower (c : ascii) : ascii :=
  let n := N_of_ascii c in
  if (65 <=? n)%N && (n <=? 90)%N then ascii_of_N (n + 32) else c.
Fixpoint toLowerCase (s : string) : string :=
  match s with
  | EmptyString => EmptyString
  | String c s' => String (lower c) (toLowerCase s')
  end.

(** The double quote and the escape character, for literals that hold one. *)
Definition quote : string := String (ascii_of_nat 34) EmptyString.
Definition esc : string := String (ascii_of_nat 27) EmptyString.

End JS.

(** ** Data model (the interfaces of geminiService.ts) *)

(** [import.meta.env]: the four variables the module reads. *)
Record ImportMetaEnv := {
  VITE_GEMINI_API_KEY : option string;
  VITE_API_BASE_URL : option string;
  VITE_MODEL_NAME : option string;
  VITE_API_TOKEN : option string;
}.

(** [v || d] for an optional string [v]. *)
Definition or_default (v : option string) (d : string) : string :=
  match v with
  | Some s => if JS.truthy s then s else d
  | None => d
  end.

(** [interface APIConfig] *)
Record APIConfig := {
  baseUrl : string;
  apiKey : string;
  modelName : string;
  apiToken : option string;
}.

(** [Partial<APIConfig>], as an object at run time: a field is absent
    ([None]), present with the value [undefined] ([Some None]: the type
    [Partial] admits it, as in [{ apiToken: undefined }]), or present with a
    string ([Some (Some s)]). *)
Record PartialAPIConfig := {
  baseUrl' : option (option string);
  apiKey' : option (option string);
  modelName' : option (option string);
  apiToken' : option (option string);
}.

Definition defaultConfig (env : ImportMetaEnv) : APIConfig := {|
  baseUrl := or_default (VITE_API_BASE_URL env) "https://generativelanguage.googleapis.com";
  apiKey := or_default (VITE_GEMINI_API_KEY env) "demo-key";
  modelName := or_default (VITE_MODEL_NAME env) "gemini-2.5-flash-image-preview";
  apiToken := Some (or_default (VITE_API_TOKEN env) EmptyString);
|}.

(** [interface GenerationRequest] *)
Record GenerationRequest := {
  prompt : string;
  referenceImages : option (list string);
  temperature : option Q;
  seed : option Q;
}.

(** [interface EditRequest] *)
Record EditRequest := {
  instruction : string;
  originalImage : string;
  edit_referenceImages : option (list string);   (* referenceImages *)
  maskImage : option string;
  edit_temperature : option Q;                   (* temperature *)
  edit_seed : option Q;                          (* seed *)
}.

(** [interface SegmentationRequest] *)
Record SegmentationRequest := {
  image : string;
  query : string;
}.

(** [interface SegmentationResponse] and the element type of [masks] *)
Record SegmentationMask := {
  label : string;
  box_2d : Q * Q * Q * Q;
  mask : string;
}.
Record SegmentationResponse := {
  masks : list SegmentationMask;
}.

(** [interface GenerationContent] and its parts *)
Record InlineData := {
  mime_type : string;
  data : string;
}.
Record ContentPart := {
  text : option string;
  inline_data : option InlineData;
}.
Record GenerationContent := {
  role : option string;
  parts : list ContentPart;
}.

(** [interface APIRequestPayload] *)
Record GenerationConfig := {
  config_temperature : option Q;                 (* temperature *)
  candidateCount : option Z;
  responseModalities : option (list string);
}.
Record APIRequestPayload := {
  contents : list GenerationContent;
  generationConfig : option GenerationConfig;
}.

(** [interface APIResponse].  The interface declares [content], [parts],
    [message] and [data] mandatory; the methods test each of them before use,
    so each is optional here. *)
Record ResponseInlineData := {
  inlineData_data : option string;               (* inlineData.data *)
}.
Record ResponsePart := {
  part_text : option string;                     (* text *)
  inlineData : option ResponseInlineData;
}.
Record ResponseContent := {
  content_parts : option (list ResponsePart);    (* content.parts *)
}.
Record Candidate := {
  candidate_content : option ResponseContent;    (* content *)
}.
Record Message := {
  message_content : option string;               (* message.content *)
}.
Record Choice := {
  message : option Message;
}.
Record APIResponse := {
  candidates : option (list Candidate);
  choices : option (list Choice);
}.

(** The body of an error reply, as far as [callAPI] reads it:
    [errorObj.error?.details], and in a detail the keys ['@type'] and
    [retryDelay]. *)
Record ErrorDetail := {
  at_type : option string;                       (* d['@type'] *)
  retryDelay : option string;
}.
Record ErrorInfo := {
  details : option (list ErrorDetail);
}.
Record ErrorObject := {
  error : option ErrorInfo;
}.

(** ** Exceptions, the console and the network *)

Inductive JSError :=
| Error (message : string)
| TypeError (message : string)
| SyntaxError (message : string).

(** A reply of the provider.  [text] and [json] are what [response.text()]
    and [response.json()] settle to. *)
Record HttpResponse := {
  status : Z;
  statusText : string;
  response_text : JSError + string;              (* await response.text() *)
  response_json : JSError + APIResponse;         (* await response.json() *)
}.

(** [response.ok]: the status is in the range 200..299. *)
Definition ok (response : HttpResponse) : bool :=
  (200 <=? status response)%Z && (status response <=? 299)%Z.

Record HttpRequest := {
  url : string;
  method : string;
  headers : gmap string string;
  body : APIRequestPayload;                      (* JSON.stringify(payload) *)
}.

Inductive FetchResult :=
| FetchRejected (e : JSError)
| FetchResponse (response : HttpResponse).

(** The provider and the network in front of it. *)
Definition Network : Type := HttpRequest -> FetchResult.

(** An argument of a [console] call. *)
Inductive LogArg :=
| AStr (s : string)
| AError (e : JSError)
| AHeaders (h : gmap string string)
| AFailure (status : Z) (statusText : string) (errorData : string).

Inductive LogLine :=
| console_log (args : list LogArg)
| console_error (args : list LogArg).

Record World := {
  console : list LogLine;
  sent : list HttpRequest;
}.

Inductive Settled (A : Type) :=
| Resolved (a : A)
| Rejected (e : JSError).
Arguments Resolved {A} a.
Arguments Rejected {A} e.

(** ** Asynchronous computations *)

Definition Async (A : Type) : Type := World -> Settled A * World.

Definition ret {A} (a : A) : Async A := fun w => (Resolved a, w).

Definition bind {A B} (m : Async A) (k : A -> Async B) : Async B :=
  fun w =>
    match m w with
    | (Resolved a, w') => k a w'
    | (Rejected e, w') => (Rejected e, w')
    end.

Definition throw {A} (e : JSError) : Async A := fun w => (Rejected e, w).

Definition try_catch {A} (block : Async A) (handler : JSError -> Async A) : Async A :=
  fun w =>
    match block w with
    | (Resolved a, w') => (Resolved a, w')
    | (Rejected e, w') => handler e w'
    end.

(** [await p] for a promise already settled to [r]. *)
Definition await {A} (r : JSError + A) : Async A :=
  match r with
  | inl e => throw e
  | inr a => ret a
  end.

Definition log (line : LogLine) : Async unit :=
  fun w => (Resolved tt, {| console := console w ++ [line]; sent := sent w |}).

Definition fetch (net : Network) (request : HttpRequest) : Async HttpResponse :=
  fun w =>
    let w' := {| console := console w; sent := sent w ++ [request] |} in
    match net request with
    | FetchRejected e => (Rejected e, w')
    | FetchResponse r => (Resolved r, w')
    end.

Declare Scope async_scope.
Delimit Scope async_scope with async.
Bind Scope async_scope with Async.
Notation "x <- m ;; k" := (bind m (fun x => k))
  (at level 100, m at next level, right associativity) : async_scope.
Notation "m ;;; k" := (bind m (fun _ => k))
  (at level 100, right associativity) : async_scope.
Local Open Scope async_scope.

(** ** GeminiService *)

(** The result of [getAuthInfo]. *)
Record AuthInfo := {
  auth_method : string;                          (* method *)
  hasToken : bool;
  hasApiKey : bool;
  willUseAuth : bool;
}.

(** [Boolean(t && t.trim())] for the optional [apiToken]. *)
Definition token_given (t : option string) : bool :=
  match t with
  | Some s => JS.truthy s && JS.truthy (JS.trim s)
  | None => false
  end.

(** The token as a string, where the guard before has found it present. *)
Definition token_text (t : option string) : string := default EmptyString t.

(** [contents[0].parts.push(part)] *)
Definition push_part (contents : list GenerationContent) (part : ContentPart)
  : list GenerationContent :=
  match contents with
  | c :: rest => {| role := role c; parts := parts c ++ [part] |} :: rest
  | [] => []
  end.

Definition image_part (image : string) : ContentPart :=
  {| text := None;
     inline_data := Some {| mime_type := "image/png"; data := image |} |}.

(** [if (headers[k]) debugHeaders[k] = headers[k].substring(0, n) + '...'] *)
Definition debug_copy (k : string) (n : nat) (headers debugHeaders : gmap string string)
  : gmap string string :=
  match headers !! k with
  | Some v => if JS.truthy v then <[k := JS.substring 0 n v +:+ "..."]> debugHeaders
              else debugHeaders
  | None => debugHeaders
  end.

Section Service.

(** [JSON.parse], at the two types its result is read at: [inl] is the
    exception it throws. *)
Variable JSON_parse_error : string -> JSError + ErrorObject.
Variable JSON_parse_segmentation : string -> JSError + SegmentationResponse.

Variable net : Network.

(** [this.config] *)
Variable config : APIConfig.

Definition getAuthInfo : AuthInfo :=
  let hasToken := token_given (apiToken config) in
  let hasValidApiKey :=
    JS.truthy (apiKey config) && JS.truthy (JS.trim (apiKey config))
    && negb (String.eqb (apiKey config) "demo-key") in
  let isGoogleGemini := JS.includes (baseUrl config) "googleapis.com" in
  let '(method, willUseAuth) :=
    if isGoogleGemini then
      let method := "Google x-goog-api-key" in
      let method :=
        if hasToken && JS.truthy (token_text (apiToken config))
           && JS.includes (token_text (apiToken config)) "SAPISID"
        then method +:+ " + Cookie" else method in
      (method, hasValidApiKey)
    else if hasToken then ("API Token (Authorization Bearer)", true)
    else if hasValidApiKey then ("API Key (Authorization Bearer)", true)
    else ("无认证", false) in
  {| auth_method := method; hasToken := hasToken;
     hasApiKey := hasValidApiKey; willUseAuth := willUseAuth |}.

(** The headers [callAPI] builds, and what it prints while choosing them. *)
Definition chooseAuth : Async (gmap string string) :=
  let headers : gmap string string := {[ "Content-Type" := "application/json" ]} in
  if JS.includes (baseUrl config) "googleapis.com" then
    let headers := <["x-goog-api-key" := apiKey config]> headers in
    log (console_log [AStr "🔵 Google Gemini原生API，使用x-goog-api-key认证:";
                      AStr (JS.substring 0 20 (apiKey config) +:+ "...")]) ;;;
    if token_given (apiToken config)
       && JS.includes (token_text (apiToken config)) "SAPISID" then
      let headers := <["Cookie" := token_text (apiToken config)]> headers in
      log (console_log [AStr "🍪 同时添加Cookie认证"]) ;;;
      ret headers
    else ret headers
  else
    let authToken :=
      if token_given (apiToken config)
      then token_text (apiToken config)
      else apiKey config in
    if JS.truthy authToken && negb (String.eqb authToken "demo-key") then
      let headers :=
        if JS.startsWith (JS.toLowerCase authToken) "bearer "
           || JS.startsWith (JS.toLowerCase authToken) "sk-"
        then <["Authorization" :=
                 if JS.startsWith (JS.toLowerCase authToken) "bearer "
                 then authToken else authToken]> headers
        else <["Authorization" := authToken]> headers in
      let tokenType :=
        if token_given (apiToken config) then "API Token" else "API Key" in
      log (console_log [AStr ("🔑 使用" +:+ tokenType +:+ "认证:");
                        AStr (JS.substring 0 20 authToken +:+ "...")]) ;;;
      ret headers
    else
      log (console_log [AStr "⚠️  未配置有效的认证信息"]) ;;;
      ret headers.

(** [errorObj.error?.details?.find(d => d['@type']?.includes('RetryInfo'))] *)
Definition findRetryInfo (errorObj : ErrorObject) : option ErrorDetail :=
  match error errorObj with
  | Some e =>
      match details e with
      | Some ds =>
          List.find (fun d => match at_type d with
                              | Some t => JS.includes t "RetryInfo"
                              | None => false
                              end) ds
      | None => None
      end
  | None => None
  end.

(** [retryInfo?.retryDelay || '未知'] *)
Definition retryDelayOf (retryInfo : option ErrorDetail) : string :=
  match retryInfo with
  | Some d => or_default (retryDelay d) "未知"
  | None => "未知"
  end.

Definition callAPI (endpoint : string) (payload : APIRequestPayload)
  : Async APIResponse :=
  let url := baseUrl config +:+ endpoint in
  headers <- chooseAuth ;;
  log (console_log [AStr "📡 API请求详情:"]) ;;;
  log (console_log [AStr "   URL:"; AStr url]) ;;;
  let debugHeaders : gmap string string :=
    {[ "Content-Type" := default EmptyString (headers !! "Content-Type") ]} in
  let debugHeaders := debug_copy "Authorization" 30 headers debugHeaders in
  let debugHeaders := debug_copy "x-goog-api-key" 20 headers debugHeaders in
  let debugHeaders := debug_copy "Cookie" 50 headers debugHeaders in
  log (console_log [AStr "   Headers:"; AHeaders debugHeaders]) ;;;
  response <- fetch net {| url := url; method := "POST";
                           headers := headers; body := payload |} ;;
  if negb (ok response) then
    errorData <- await (response_text response) ;;
    log (console_error [AStr "❌ API调用失败:";
                        AFailure (status response) (statusText response) errorData]) ;;;
    if (status response =? 429)%Z then
      errorObj <- await (JSON_parse_error errorData) ;;
      let retryInfo := findRetryInfo errorObj in
      let retryDelay := retryDelayOf retryInfo in
      log (console_log [AStr "🚫 API配额已达限制:"]) ;;;
      log (console_log [AStr "   - 这是Google Gemini免费层的正常限制"]) ;;;
      log (console_log [AStr "   - 建议等待时间:"; AStr retryDelay]) ;;;
      log (console_log [AStr "   - 解决方案:"]) ;;;
      log (console_log [AStr "     1. 等待配额重置（通常每天重置）"]) ;;;
      log (console_log [AStr "     2. 升级到付费计划获得更高配额"]) ;;;
      log (console_log [AStr "     3. 配置其他API提供商（OpenAI等）"]) ;;;
      throw (Error ("API配额已达限制，请等待 " +:+ retryDelay
                    +:+ " 后重试，或考虑升级API计划"))
    else
      throw (Error ("API call failed: " +:+ pretty (status response) +:+ " "
                    +:+ statusText response +:+ " - " +:+ errorData))
  else
    result <- await (response_json response) ;;
    log (console_log [AStr "✅ API调用成功"]) ;;;
    ret result.

(** [const endpoint = isOpenAIAPI ? ... : ...], written out in each of the
    three methods. *)
Definition endpointFor : string :=
  let isOpenAIAPI := JS.includes (baseUrl config) "openai.com" in
  if isOpenAIAPI then "/v1/chat/completions"
  else "/v1beta/models/" +:+ modelName config +:+ ":generateContent".

(** [response.candidates && response.candidates[0]
     && response.candidates[0].content && response.candidates[0].content.parts] *)
Definition candidateParts (response : APIResponse) : option (list ResponsePart) :=
  match candidates response with
  | Some cs =>
      match head cs with
      | Some c =>
          match candidate_content c with
          | Some ct => content_parts ct
          | None => None
          end
      | None => None
      end
  | None => None
  end.

(** [response.choices && response.choices[0]] *)
Definition firstChoice (response : APIResponse) : option Choice :=
  match choices response with
  | Some cs => head cs
  | None => None
  end.

(** The loop [for (const part of parts) if (part.inlineData &&
    part.inlineData.data) images.push(part.inlineData.data)]. *)
Definition pushInlineImages (parts : list ResponsePart) (images : list string)
  : list string :=
  fold_left
    (fun images part =>
       match inlineData part with
       | Some d =>
           match inlineData_data d with
           | Some s => if JS.truthy s then images ++ [s] else images
           | None => images
           end
       | None => images
       end)
    parts images.

(** The reading of the reply, the same text in [generateImage] and in
    [editImage]. *)
Definition readImages (response : APIResponse) : Async (list string) :=
  let images : list string := [] in
  match candidateParts response with
  | Some parts => ret (pushInlineImages parts images)
  | None =>
      match firstChoice response with
      | Some choice =>
          match message choice with
          | Some m =>
              match message_content m with
              | Some c => if JS.truthy c then ret (images ++ [c]) else ret images
              | None => ret images
              end
          | None => ret images
          end
      | None => throw (Error "Invalid response format from API")
      end
  end.

(** [if (request.referenceImages && request.referenceImages.length > 0)
      request.referenceImages.forEach(image => contents[0].parts.push(...))] *)
Definition addReferenceImages (referenceImages : option (list string))
    (contents : list GenerationContent) : list GenerationContent :=
  match referenceImages with
  | Some images =>
      if (0 <? length images)%nat
      then fold_left (fun contents image => push_part contents (image_part image))
                     images contents
      else contents
  | None => contents
  end.

Definition generatePayload (request : GenerationRequest) : APIRequestPayload :=
  let contents :=
    [ {| role := Some "user";
         parts := [ {| text := Some (prompt request); inline_data := None |} ] |} ] in
  let contents := addReferenceImages (referenceImages request) contents in
  {| contents := contents;
     generationConfig := Some {| config_temperature := temperature request;
                                 candidateCount := Some 1%Z;
                                 responseModalities := Some ["TEXT"; "IMAGE"] |} |}.

Definition generateImage (request : GenerationRequest) : Async (list string) :=
  try_catch
    (let payload := generatePayload request in
     let endpoint := endpointFor in
     response <- callAPI endpoint payload ;;
     readImages response)
    (fun error =>
       log (console_error [AStr "Error generating image:"; AError error]) ;;;
       throw (Error "Failed to generate image. Please try again.")).

Definition buildEditPrompt (request : EditRequest) : string :=
    let maskInstruction :=
      match maskImage request with
      | Some m =>
          if JS.truthy m then "

IMPORTANT: Apply changes ONLY where the mask image shows white pixels (value 255). Leave all other areas completely unchanged. Respect the mask boundaries precisely and maintain seamless blending at the edges."
          else EmptyString
      | None => EmptyString
      end in
    "Edit this image according to the following instruction: " +:+ instruction request +:+ "

Maintain the original image's lighting, perspective, and overall composition. Make the changes look natural and seamlessly integrated." +:+ maskInstruction +:+ "

Preserve image quality and ensure the edit looks professional and realistic.".

Definition editPayload (request : EditRequest) : APIRequestPayload :=
  let contents :=
    [ {| role := Some "user";
         parts := [ {| text := Some (buildEditPrompt request); inline_data := None |};
                    image_part (originalImage request) ] |} ] in
  let contents := addReferenceImages (edit_referenceImages request) contents in
  let contents :=
    match maskImage request with
    | Some m => if JS.truthy m then push_part contents (image_part m) else contents
    | None => contents
    end in
  {| contents := contents;
     generationConfig := Some {| config_temperature := edit_temperature request;
                                 candidateCount := Some 1%Z;
                                 responseModalities := Some ["TEXT"; "IMAGE"] |} |}.

Definition editImage (request : EditRequest) : Async (list string) :=
  try_catch
    (let payload := editPayload request in
     let endpoint := endpointFor in
     response <- callAPI endpoint payload ;;
     readImages response)
    (fun error =>
       log (console_error [AStr "Error editing image:"; AError error]) ;;;
       throw (Error "Failed to edit image. Please try again.")).

Definition segmentPrompt (request : SegmentationRequest) : string :=
    "Analyze this image and create a segmentation mask for: " +:+ query request +:+ "

Return a JSON object with this exact structure:
{
  " +:+ JS.quote +:+ "masks" +:+ JS.quote +:+ ": [
    {
      " +:+ JS.quote +:+ "label" +:+ JS.quote +:+ ": " +:+ JS.quote
      +:+ "description of the segmented object" +:+ JS.quote +:+ ",
      " +:+ JS.quote +:+ "box_2d" +:+ JS.quote +:+ ": [x, y, width, height],
      " +:+ JS.quote +:+ "mask" +:+ JS.quote +:+ ": " +:+ JS.quote
      +:+ "base64-encoded binary mask image" +:+ JS.quote +:+ "
    }
  ]
}

Only segment the specific object or region requested. The mask should be a binary PNG where white pixels (255) indicate the selected region and black pixels (0) indicate the background.".

Definition segmentPayload (request : SegmentationRequest) : APIRequestPayload :=
  let contents :=
    [ {| role := Some "user";
         parts := [ {| text := Some (segmentPrompt request); inline_data := None |};
                    image_part (image request) ] |} ] in
  {| contents := contents;
     generationConfig := Some {| config_temperature := None;
                                 candidateCount := None;
                                 responseModalities := Some ["TEXT"; "IMAGE"] |} |}.

(** The text [segmentImage] takes from the reply, [undefined] when the part
    or the message has none; a reply of neither shape throws. *)
Definition readText (response : APIResponse) : Async (option string) :=
  match match candidateParts response with
        | Some parts => head parts
        | None => None
        end with
  | Some part => ret (part_text part)
  | None =>
      match match firstChoice response with
            | Some choice => message choice
            | None => None
            end with
      | Some m => ret (message_content m)
      | None => throw (Error "Invalid response format from API")
      end
  end.

Definition segmentImage (request : SegmentationRequest) : Async SegmentationResponse :=
  try_catch
    (let payload := segmentPayload request in
     let endpoint := endpointFor in
     response <- callAPI endpoint payload ;;
     responseText <- readText response ;;
     match responseText with
     | Some responseText =>
         if negb (JS.truthy responseText) then
           throw (Error "No text content in response")
         else await (JSON_parse_segmentation responseText)
     | None => throw (Error "No text content in response")
     end)
    (fun error =>
       log (console_error [AStr "Error segmenting image:"; AError error]) ;;;
       throw (Error "Failed to segment image. Please try again.")).

End Service.

(** ** The service object

    [this.config] is a reference: the constructor and [setConfig] store a
    fresh object in it, [getConfig] hands out another fresh object. *)

Module Heap.

Definition loc := positive.

(** A configuration object as it lies on the heap.  Reading a field gives a
    string or [undefined] ([None]), also for the three fields the interface
    declares as strings: the spread copies a field that is present with the
    value [undefined].  (A field that is absent and a field that holds
    [undefined] read alike, and the service only reads.) *)
Record ConfigObject := {
  config_baseUrl : option string;
  config_apiKey : option string;
  config_modelName : option string;
  config_apiToken : option string;
}.

Inductive Obj :=
| ServiceObj (config : loc)                    (* an instance: its [config] field *)
| ConfigObj (c : ConfigObject).

Abbreviation heap := (gmap loc Obj).

(** The object literal [{ ... }] evaluated to [o]: a new object. *)
Definition alloc (o : Obj) (h : heap) : loc * heap :=
  let l := fresh (dom h) in (l, <[l := o]> h).

(** The fields of a configuration of the declared type, as stored. *)
Definition store (c : APIConfig) : ConfigObject :=
  {| config_baseUrl := Some (baseUrl c);
     config_apiKey := Some (apiKey c);
     config_modelName := Some (modelName c);
     config_apiToken := apiToken c |}.

(** What the methods read from a stored configuration, when the three
    fields they use as strings hold strings. *)
Definition typed (c : ConfigObject) : option APIConfig :=
  match config_baseUrl c, config_apiKey c, config_modelName c with
  | Some b, Some k, Some m =>
      Some {| baseUrl := b; apiKey := k; modelName := m;
              apiToken := config_apiToken c |}
  | _, _, _ => None
  end.

(** One field of [{ ...a, ...b }]: the field of [b] when [b] has it, whatever
    its value, and the field of [a] otherwise. *)
Definition overridden (a : option string) (b : option (option string))
    : option string :=
  match b with
  | Some v => v
  | None => a
  end.

(** [{ ...a, ...b }] *)
Definition spread (a : ConfigObject) (b : PartialAPIConfig) : ConfigObject :=
  {| config_baseUrl := overridden (config_baseUrl a) (baseUrl' b);
     config_apiKey := overridden (config_apiKey a) (apiKey' b);
     config_modelName := overridden (config_modelName a) (modelName' b);
     config_apiToken := overridden (config_apiToken a) (apiToken' b) |}.

(** [this.config], read. *)
Definition configOf (this : loc) (h : heap) : option ConfigObject :=
  match h !! this with
  | Some (ServiceObj l) =>
      match h !! l with
      | Some (ConfigObj c) => Some c
      | _ => None
      end
  | _ => None
  end.

(** [new GeminiService(config)] *)
Definition constructor (env : ImportMetaEnv) (config : option PartialAPIConfig)
    (h : heap) : loc * heap :=
  let c := match config with
           | Some p => spread (store (defaultConfig env)) p
           | None => store (defaultConfig env)
           end in
  let '(l, h) := alloc (ConfigObj c) h in
  alloc (ServiceObj l) h.

(** [this.config = { ...this.config, ...config }] *)
Definition setConfig (this : loc) (config : PartialAPIConfig) (h : heap) : heap :=
  match configOf this h with
  | Some c =>
      let '(l, h) := alloc (ConfigObj (spread c config)) h in
      <[this := ServiceObj l]> h
  | None => h
  end.

(** [return { ...this.config }] *)
Definition getConfig (this : loc) (h : heap) : option (loc * heap) :=
  match configOf this h with
  | Some c => Some (alloc (ConfigObj c) h)
  | None => None
  end.

(** Any assignment to fields of the configuration object at [l]. *)
Definition mutate (l : loc) (update : ConfigObject -> ConfigObject) (h : heap)
    : heap :=
  match h !! l with
  | Some (ConfigObj c) => <[l := ConfigObj (update c)]> h
  | _ => h
  end.

End Heap.

(** ** The configuration check (the script that validates [.env])

    The script prints with [console.log] and ends with [process.exit(1)] or by
    running off its end.  [main] takes what the file system holds at
    [path.join(__dirname, '.env')] and gives the lines printed and the exit
    status. *)

Module ValidateEnv.

(** [colors] *)
Definition paint (code text : string) : string :=
  JS.esc +:+ "[" +:+ code +:+ "m" +:+ text +:+ JS.esc +:+ "[0m".
Definition green := paint "32".
Definition red := paint "31".
Definition yellow := paint "33".
Definition blue := paint "34".
Definition cyan := paint "36".
Definition bold := paint "1".

Definition newline : ascii := ascii_of_nat 10.
Definition nl : string := String newline EmptyString.

(** The body of [envContent.split('\n').forEach(line => ...)].  An assignment
    to the key [__proto__] of an object literal creates no property. *)
Definition parseLine (envVars : gmap string string) (line : string)
  : gmap string string :=
  let trimmed := JS.trim line in
  if JS.truthy trimmed && negb (JS.startsWith trimmed "#") then
    match JS.split "=" trimmed with
    | key :: valueParts =>
        if JS.truthy key && (0 <? length valueParts)%nat then
          if String.eqb (JS.trim key) "__proto__" then envVars
          else <[JS.trim key := JS.trim (JS.join "=" valueParts)]> envVars
        else envVars
    | [] => envVars
    end
  else envVars.

Definition parseEnv (envContent : string) : gmap string string :=
  fold_left parseLine (JS.split newline envContent) ∅.

(** An element of [requiredVars]. *)
Record VarConfig := {
  key : string;
  name : string;
  required : bool;
  sensitive : bool;                              (* absent: false *)
  default_value : option string;                 (* default *)
}.

Definition requiredVars : list VarConfig := [
  {| key := "VITE_GEMINI_API_KEY"; name := "API密钥";
     required := false; sensitive := true; default_value := None |};
  {| key := "VITE_API_TOKEN"; name := "API Token";
     required := false; sensitive := true; default_value := None |};
  {| key := "VITE_API_BASE_URL"; name := "API基础地址";
     required := false; sensitive := false;
     default_value := Some "https://generativelanguage.googleapis.com" |};
  {| key := "VITE_MODEL_NAME"; name := "模型名称";
     required := false; sensitive := false;
     default_value := Some "gemini-2.5-flash-image-preview" |}
].

(** [!!v] for a looked-up variable. *)
Definition set (v : option string) : bool :=
  match v with
  | Some s => JS.truthy s
  | None => false
  end.

Definition hasApiKey (envVars : gmap string string) : bool :=
  match envVars !! "VITE_GEMINI_API_KEY" with
  | Some k => JS.truthy k && negb (String.eqb k "your_api_key_here")
              && negb (JS.includes k "demo")
  | None => false
  end.

Definition hasApiToken (envVars : gmap string string) : bool :=
  match envVars !! "VITE_API_TOKEN" with
  | Some t => JS.truthy t && JS.truthy (JS.trim t)
  | None => false
  end.

(** The state of a run: what was printed, and [isValid]. *)
Record Run := {
  stdout : list string;
  isValid : bool;
}.

Definition print (line : string) (r : Run) : Run :=
  {| stdout := stdout r ++ [line]; isValid := isValid r |}.
Definition invalidate (r : Run) : Run :=
  {| stdout := stdout r; isValid := false |}.

(** The body of [requiredVars.forEach(varConfig => ...)]. *)
Definition checkVar (envVars : gmap string string) (r : Run) (varConfig : VarConfig)
  : Run :=
  let value := envVars !! key varConfig in
  let displayName := name varConfig +:+ " (" +:+ key varConfig +:+ ")" in
  if negb (set value)
     || (String.eqb (key varConfig) "VITE_GEMINI_API_KEY"
         && (String.eqb (default EmptyString value) "your_api_key_here"
             || JS.includes (default EmptyString value) "demo"))
  then
    if String.eqb (key varConfig) "VITE_GEMINI_API_KEY" && negb (hasApiToken envVars) then
      invalidate
        (print (yellow "   💡 提示：必须配置 VITE_GEMINI_API_KEY 或 VITE_API_TOKEN 中的一个")
           (print (red ("❌ " +:+ displayName +:+ ": 未配置有效值")) r))
    else if String.eqb (key varConfig) "VITE_API_TOKEN" && negb (hasApiKey envVars) then
      invalidate
        (print (yellow "   💡 提示：必须配置 VITE_GEMINI_API_KEY 或 VITE_API_TOKEN 中的一个")
           (print (red ("❌ " +:+ displayName +:+ ": 未配置")) r))
    else if required varConfig then
      invalidate (print (red ("❌ " +:+ displayName +:+ ": 未配置 (必需)")) r)
    else
      print (yellow ("⚠️  " +:+ displayName +:+ ": 使用默认值 " +:+ JS.quote
                     +:+ or_default (default_value varConfig) "未设置" +:+ JS.quote)) r
  else
    let value := default EmptyString value in
    let displayValue :=
      if sensitive varConfig && (10 <? String.length value)%nat
      then JS.substring 0 10 value +:+ "..."
           +:+ JS.substring_from (String.length value - 4) value
      else value in
    print (green ("✅ " +:+ displayName +:+ ": " +:+ displayValue)) r.

(** The test that follows the loop: one of the two credentials is needed. *)
Definition checkAuth (envVars : gmap string string) (r : Run) : Run :=
  if negb (hasApiKey envVars) && negb (hasApiToken envVars) then
    invalidate
      (print (red "❌ 错误：必须配置 VITE_GEMINI_API_KEY 或 VITE_API_TOKEN 中的至少一个") r)
  else if hasApiKey envVars && hasApiToken envVars then
    print (cyan "ℹ️  信息：同时配置了API Key和API Token，将优先使用API Token") r
  else r.

(** The provider guessed from [baseUrl]. *)
Definition detectProvider (baseUrl : string) (r : Run) : Run :=
  if JS.includes baseUrl "googleapis.com" then
    print (cyan "   认证方式: x-goog-api-key header")
      (print (cyan "   端点格式: /v1beta/models/{model}:generateContent")
         (print (blue "🔵 检测到Google Gemini API配置") r))
  else if JS.includes baseUrl "openai.com" then
    print (cyan "   认证方式: Authorization Bearer token")
      (print (cyan "   端点格式: /v1/chat/completions")
         (print (blue "🟢 检测到OpenAI API配置") r))
  else if JS.includes baseUrl "azure.com" then
    print (cyan "   认证方式: Authorization Bearer token")
      (print (cyan "   端点格式: /v1/chat/completions")
         (print (blue "🔵 检测到Azure OpenAI API配置") r))
  else
    print (cyan "   将使用OpenAI兼容格式")
      (print (yellow "🟡 检测到自定义API提供商") r).

(** The credential in use. *)
Definition reportAuth (envVars : gmap string string) (r : Run) : Run :=
  if hasApiToken envVars then print (green "✅ 当前认证方式: API Token (优先级高)") r
  else if hasApiKey envVars then print (green "✅ 当前认证方式: API Key") r
  else print (red "❌ 未配置任何认证方式") r.

(** The advice on a local address. *)
Definition adviseLocal (baseUrl : string) (r : Run) : Run :=
  if JS.includes baseUrl "localhost" || JS.includes baseUrl "127.0.0.1"
  then print (yellow "⚠️  检测到本地API地址，确保本地服务正在运行") r
  else r.

(** The test for a sample API key. *)
Definition checkSampleKey (envVars : gmap string string) (r : Run) : Run :=
  match envVars !! "VITE_GEMINI_API_KEY" with
  | Some k =>
      if JS.truthy k && JS.includes k "demo"
      then invalidate (print (red "❌ 使用的是示例API密钥，请替换为真实的API密钥") r)
      else r
  | None => r
  end.

(** The closing lines. *)
Definition verdict (r : Run) : Run :=
  if isValid r then
    print (cyan "运行命令: npm run dev")
      (print (green (bold "✅ 配置验证通过！可以启动应用了")) r)
  else
    print (red (bold "❌ 配置存在问题，请检查上述错误信息")) r.

(** The script after [.env] has been read, statement by statement. *)
Definition validate (envContent : string) : Run :=
  let envVars := parseEnv envContent in
  let r := {| stdout := []; isValid := true |} in
  let r := print (bold (cyan "🔍 Nano Banana Editor - 环境配置验证工具")) r in
  let r := print (JS.repeat "=" 50) r in
  let r := print (bold "📋 当前环境配置:") r in
  let r := print (JS.repeat "-" 30) r in
  let r := fold_left (checkVar envVars) requiredVars r in
  let r := checkAuth envVars r in
  let r := print (nl +:+ bold "🔧 API提供商检测:") r in
  let r := print (JS.repeat "-" 30) r in
  let baseUrl :=
    or_default (envVars !! "VITE_API_BASE_URL") "https://generativelanguage.googleapis.com" in
  let r := detectProvider baseUrl r in
  let r := reportAuth envVars r in
  let r := print (nl +:+ bold "💡 使用建议:") r in
  let r := print (JS.repeat "-" 30) r in
  let r := adviseLocal baseUrl r in
  let r := checkSampleKey envVars r in
  let r := print (cyan "📚 参考文档: API_CONFIG.md") r in
  let r := print (cyan "🔍 使用示例: USAGE_EXAMPLES.md") r in
  let r := print (nl +:+ JS.repeat "=" 50) r in
  verdict r.

(** The whole script: [envFile] is the content of [.env], [None] when
    [fs.existsSync] finds none.  The result is the output and the exit
    status. *)
Definition main (envFile : option string) : list string * Z :=
  match envFile with
  | None =>
      ([ bold (cyan "🔍 Nano Banana Editor - 环境配置验证工具");
         JS.repeat "=" 50;
         red "❌ 未找到.env文件";
         yellow "💡 请复制.env.example为.env并配置相应的环境变量" ], 1%Z)
  | Some envContent =>
      let r := validate envContent in
      (stdout r, if isValid r then 0%Z else 1%Z)
  end.

End ValidateEnv.

(** * Properties *)

(** ** Running asynchronous computations *)

Definition emptyWorld : World := {| console := []; sent := [] |}.

(** The world [w] after more lines were printed and more requests sent. *)
Definition extend (w : World) (lines : list LogLine) (requests : list HttpRequest)
  : World :=
  {| console := console w ++ lines; sent := sent w ++ requests |}.

Lemma extend_nil w : extend w [] [] = w.
Proof. destruct w. unfold extend. simpl. by rewrite !app_nil_r. Qed.

Lemma extend_extend w l1 r1 l2 r2 :
  extend (extend w l1 r1) l2 r2 = extend w (l1 ++ l2) (r1 ++ r2).
Proof. unfold extend. simpl. by rewrite !app_assoc. Qed.

(** What [m] settles to, prints and sends when run from the empty world. *)
Definition outcome {A} (m : Async A) : Settled A := fst (m emptyWorld).
Definition printed {A} (m : Async A) : list LogLine := console (snd (m emptyWorld)).
Definition requested {A} (m : Async A) : list HttpRequest := sent (snd (m emptyWorld)).

(** [m] reads nothing of the world it starts from: it only adds to it. *)
Definition framed {A} (m : Async A) : Prop :=
  forall w, m w = (outcome m, extend w (printed m) (requested m)).

Lemma framed_intro {A} (m : Async A) r lines requests :
  (forall w, m w = (r, extend w lines requests)) -> framed m.
Proof.
  intros H w. unfold outcome, printed, requested.
  rewrite (H emptyWorld), (H w). reflexivity.
Qed.

Lemma framed_ret {A} (a : A) : framed (ret a).
Proof.
  apply (framed_intro _ (Resolved a) [] []). intros w.
  unfold ret. by rewrite extend_nil.
Qed.

Lemma framed_throw {A} e : framed (@throw A e).
Proof.
  apply (framed_intro _ (Rejected e) [] []). intros w.
  unfold throw. by rewrite extend_nil.
Qed.

Lemma framed_log line : framed (log line).
Proof.
  apply (framed_intro _ (Resolved tt) [line] []). intros w.
  unfold log, extend. simpl. by rewrite app_nil_r.
Qed.

Lemma framed_await {A} (r : JSError + A) : framed (await r).
Proof. destruct r; [apply framed_throw | apply framed_ret]. Qed.

Lemma framed_fetch net request : framed (fetch net request).
Proof.
  apply (framed_intro _ (match net request with
                         | FetchRejected e => Rejected e
                         | FetchResponse r => Resolved r
                         end) [] [request]).
  intros w. unfold fetch, extend. simpl. rewrite app_nil_r.
  by destruct (net request).
Qed.

Lemma framed_bind {A B} (m : Async A) (k : A -> Async B) :
  framed m -> (forall a, framed (k a)) -> framed (bind m k).
Proof.
  intros Hm Hk.
  destruct (outcome m) as [a|e] eqn:E.
  - apply (framed_intro _ (outcome (k a)) (printed m ++ printed (k a))
                          (requested m ++ requested (k a))).
    intros w. unfold bind. rewrite (Hm w), E, (Hk a). by rewrite extend_extend.
  - apply (framed_intro _ (Rejected e) (printed m) (requested m)).
    intros w. unfold bind. by rewrite (Hm w), E.
Qed.

Lemma framed_try_catch {A} (block : Async A) (handler : JSError -> Async A) :
  framed block -> (forall e, framed (handler e)) -> framed (try_catch block handler).
Proof.
  intros Hm Hk.
  destruct (outcome block) as [a|e] eqn:E.
  - apply (framed_intro _ (Resolved a) (printed block) (requested block)).
    intros w. unfold try_catch. by rewrite (Hm w), E.
  - apply (framed_intro _ (outcome (handler e)) (printed block ++ printed (handler e))
                          (requested block ++ requested (handler e))).
    intros w. unfold try_catch. rewrite (Hm w), E, (Hk e). by rewrite extend_extend.
Qed.

(** How a sequence, and a guarded block, run from the empty world. *)
Lemma bind_empty {A B} (m : Async A) (k : A -> Async B) :
  framed m -> (forall a, framed (k a)) ->
  bind m k emptyWorld =
  match outcome m with
  | Resolved a => (outcome (k a), extend emptyWorld (printed m ++ printed (k a))
                                         (requested m ++ requested (k a)))
  | Rejected e => (Rejected e, extend emptyWorld (printed m) (requested m))
  end.
Proof.
  intros Hm Hk. unfold bind. rewrite (Hm emptyWorld).
  destruct (outcome m); [|done].
  by rewrite (Hk a), extend_extend.
Qed.

Lemma try_catch_empty {A} (block : Async A) (handler : JSError -> Async A) :
  framed block -> (forall e, framed (handler e)) ->
  try_catch block handler emptyWorld =
  match outcome block with
  | Resolved a => (Resolved a, extend emptyWorld (printed block) (requested block))
  | Rejected e => (outcome (handler e),
                   extend emptyWorld (printed block ++ printed (handler e))
                          (requested block ++ requested (handler e)))
  end.
Proof.
  intros Hm Hk. unfold try_catch. rewrite (Hm emptyWorld).
  destruct (outcome block); [done|].
  by rewrite (Hk e), extend_extend.
Qed.

Create HintDb framed.
#[local] Hint Resolve framed_ret framed_throw framed_log framed_await framed_fetch
  : framed.

Ltac framed_steps :=
  repeat first
    [ solve [eauto with framed]
    | apply framed_bind; [|intros]
    | apply framed_try_catch; [|intros]
    | case_match ].

Lemma framed_chooseAuth config : framed (chooseAuth config).
Proof. unfold chooseAuth. cbv zeta. framed_steps. Qed.
#[local] Hint Resolve framed_chooseAuth : framed.

Lemma framed_callAPI parse net config endpoint payload :
  framed (callAPI parse net config endpoint payload).
Proof. unfold callAPI. cbv zeta. framed_steps. Qed.
#[local] Hint Resolve framed_callAPI : framed.

Lemma framed_readImages response : framed (readImages response).
Proof. unfold readImages. cbv zeta. framed_steps. Qed.
#[local] Hint Resolve framed_readImages : framed.

Lemma framed_readText response : framed (readText response).
Proof. unfold readText. framed_steps. Qed.
#[local] Hint Resolve framed_readText : framed.

Lemma framed_generateImage parse net config request :
  framed (generateImage parse net config request).
Proof. unfold generateImage. cbv zeta. framed_steps. Qed.

Lemma framed_editImage parse net config request :
  framed (editImage parse net config request).
Proof. unfold editImage. cbv zeta. framed_steps. Qed.

Lemma framed_segmentImage parse parseS net config request :
  framed (segmentImage parse parseS net config request).
Proof. unfold segmentImage. cbv zeta. framed_steps. Qed.

(** ** The request [callAPI] sends *)

(** The headers chosen for a configuration and the lines printed while
    choosing them: [chooseAuth] read off its run from the empty world. *)
Definition chosenHeaders (config : APIConfig) : gmap string string :=
  match outcome (chooseAuth config) with
  | Resolved h => h
  | Rejected _ => ∅
  end.

Definition authLines (config : APIConfig) : list LogLine :=
  printed (chooseAuth config).

Definition requestFor (config : APIConfig) (endpoint : string)
    (payload : APIRequestPayload) : HttpRequest :=
  {| url := baseUrl config +:+ endpoint; method := "POST";
     headers := chosenHeaders config; body := payload |}.

Ltac run_step :=
  cbv beta iota zeta delta [bind ret throw log await try_catch fetch extend
                            emptyWorld outcome printed requested];
  cbn [console sent fst snd];
  rewrite ?app_nil_r, ?app_nil_l, <- ?app_assoc.

Lemma chooseAuth_eq config w :
  chooseAuth config w = (Resolved (chosenHeaders config), extend w (authLines config) []).
Proof.
  unfold chosenHeaders, authLines, chooseAuth.
  destruct (JS.includes (baseUrl config) "googleapis.com").
  - destruct (token_given (apiToken config)
              && JS.includes (token_text (apiToken config)) "SAPISID");
      run_step; reflexivity.
  - cbv zeta.
    destruct (JS.truthy _ && negb _); run_step; reflexivity.
Qed.

Ltac run_callAPI :=
  unfold callAPI; cbv zeta; unfold bind at 1; rewrite chooseAuth_eq;
  cbv beta iota delta [bind log ret fetch];
  cbn [console sent fst snd extend emptyWorld];
  match goal with
  | |- context [ {| url := baseUrl ?c +:+ ?e; method := _; headers := _; body := ?p |} ] =>
      change {| url := baseUrl c +:+ e; method := "POST";
                headers := chosenHeaders c; body := p |}
        with (requestFor c e p)
  end.

Ltac run_more :=
  cbv beta iota delta [bind log ret throw await];
  cbn [console sent fst snd].

(** [callAPI] sends one request, whatever comes back. *)
Lemma callAPI_requested parse net config endpoint payload :
  requested (callAPI parse net config endpoint payload)
  = [requestFor config endpoint payload].
Proof.
  unfold requested. run_callAPI.
  destruct (net _) as [e|r]; [reflexivity|].
  destruct (negb (ok r)); run_more.
  - destruct (response_text r) as [e|errorData]; [reflexivity|]. run_more.
    destruct (status r =? 429)%Z; [|reflexivity].
    destruct (parse errorData); reflexivity.
  - destruct (response_json r); reflexivity.
Qed.

(** A reply with a status in 200..299 and a body that parses. *)
Lemma callAPI_ok parse net config endpoint payload r response :
  net (requestFor config endpoint payload) = FetchResponse r ->
  ok r = true ->
  response_json r = inr response ->
  outcome (callAPI parse net config endpoint payload) = Resolved response.
Proof.
  intros Hnet Hok Hjson. unfold outcome. run_callAPI.
  rewrite Hnet, Hok. run_more. rewrite Hjson. reflexivity.
Qed.

(** [fetch] itself rejects. *)
Lemma callAPI_network_failure parse net config endpoint payload e :
  net (requestFor config endpoint payload) = FetchRejected e ->
  outcome (callAPI parse net config endpoint payload) = Rejected e.
Proof.
  intros Hnet. unfold outcome. run_callAPI. rewrite Hnet. reflexivity.
Qed.

(** A reply with a status outside 200..299. *)
Lemma callAPI_not_ok parse net config endpoint payload r :
  net (requestFor config endpoint payload) = FetchResponse r ->
  ok r = false ->
  exists e, outcome (callAPI parse net config endpoint payload) = Rejected e.
Proof.
  intros Hnet Hok. unfold outcome. run_callAPI.
  rewrite Hnet, Hok. run_more.
  destruct (response_text r) as [e|errorData]; [by eexists|]. run_more.
  destruct (status r =? 429)%Z; [|by eexists].
  destruct (parse errorData); by eexists.
Qed.

(** A reply with status 429 and a body that [JSON.parse] accepts. *)
Lemma callAPI_429 parse net config endpoint payload r errorData errorObj :
  net (requestFor config endpoint payload) = FetchResponse r ->
  status r = 429%Z ->
  response_text r = inr errorData ->
  parse errorData = inr errorObj ->
  let retryDelay := retryDelayOf (findRetryInfo errorObj) in
  outcome (callAPI parse net config endpoint payload)
  = Rejected (Error ("API配额已达限制，请等待 " +:+ retryDelay
                     +:+ " 后重试，或考虑升级API计划"))
  /\ console_log [AStr "   - 建议等待时间:"; AStr retryDelay]
     ∈ printed (callAPI parse net config endpoint payload).
Proof.
  intros Hnet Hstatus Htext Hparse retryDelay.
  assert (Hok : ok r = false) by (unfold ok; rewrite Hstatus; reflexivity).
  split; [unfold outcome | unfold printed]; run_callAPI;
    rewrite Hnet, Hok; run_more; rewrite Htext; run_more;
    rewrite Hstatus; cbn [Z.eqb Pos.eqb]; rewrite Hparse; run_more;
    [reflexivity|].
  cbn [negb]. cbv beta iota. cbn [console sent fst snd].
  rewrite !elem_of_app. left. left. left. left. right.
  apply list_elem_of_singleton. reflexivity.
Qed.

(** ** Sequences and guarded blocks, run from the empty world *)

Lemma outcome_bind {A B} (m : Async A) (k : A -> Async B) :
  framed m -> (forall a, framed (k a)) ->
  outcome (bind m k) =
  match outcome m with
  | Resolved a => outcome (k a)
  | Rejected e => Rejected e
  end.
Proof.
  intros Hm Hk. unfold outcome at 1. rewrite bind_empty by done.
  by destruct (outcome m).
Qed.

Lemma printed_bind {A B} (m : Async A) (k : A -> Async B) :
  framed m -> (forall a, framed (k a)) ->
  printed (bind m k) =
  printed m ++ match outcome m with
               | Resolved a => printed (k a)
               | Rejected e => []
               end.
Proof.
  intros Hm Hk. unfold printed at 1. rewrite bind_empty by done.
  destruct (outcome m); cbn; by rewrite ?app_nil_r.
Qed.

Lemma requested_bind {A B} (m : Async A) (k : A -> Async B) :
  framed m -> (forall a, framed (k a)) ->
  requested (bind m k) =
  requested m ++ match outcome m with
                 | Resolved a => requested (k a)
                 | Rejected e => []
                 end.
Proof.
  intros Hm Hk. unfold requested at 1. rewrite bind_empty by done.
  destruct (outcome m); cbn; by rewrite ?app_nil_r.
Qed.

(** The [catch] clause of the three methods. *)
Definition rethrow {A} (label message : string) (error : JSError) : Async A :=
  log (console_error [AStr label; AError error]) ;;; throw (Error message).

Lemma framed_rethrow {A} label message error : framed (@rethrow A label message error).
Proof. unfold rethrow. framed_steps. Qed.
#[local] Hint Resolve framed_rethrow framed_bind framed_try_catch : framed.

Lemma outcome_guarded {A} (block : Async A) label message :
  framed block ->
  outcome (try_catch block (rethrow label message)) =
  match outcome block with
  | Resolved a => Resolved a
  | Rejected e => Rejected (Error message)
  end.
Proof.
  intros Hb. unfold outcome at 1. rewrite try_catch_empty by eauto with framed.
  by destruct (outcome block).
Qed.

Lemma printed_guarded {A} (block : Async A) label message :
  framed block ->
  printed (try_catch block (@rethrow A label message)) =
  printed block ++ match outcome block with
                   | Resolved a => []
                   | Rejected e => [console_error [AStr label; AError e]]
                   end.
Proof.
  intros Hb. unfold printed at 1. rewrite try_catch_empty by eauto with framed.
  destruct (outcome block); cbn; by rewrite ?app_nil_r.
Qed.

Lemma requested_guarded {A} (block : Async A) label message :
  framed block ->
  requested (try_catch block (@rethrow A label message)) = requested block.
Proof.
  intros Hb. unfold requested at 1. rewrite try_catch_empty by eauto with framed.
  destruct (outcome block); cbn; by rewrite ?app_nil_r.
Qed.

(** Reading a reply prints nothing and sends nothing. *)
Lemma readImages_silent response :
  printed (readImages response) = [] /\ requested (readImages response) = [].
Proof. unfold readImages. cbv zeta. by repeat case_match. Qed.

Lemma readText_silent response :
  printed (readText response) = [] /\ requested (readText response) = [].
Proof. unfold readText. by repeat case_match. Qed.

(** The three methods as guarded blocks. *)
Lemma generateImage_unfold parse net config request :
  generateImage parse net config request =
  try_catch (bind (callAPI parse net config (endpointFor config) (generatePayload request))
                  readImages)
            (rethrow "Error generating image:" "Failed to generate image. Please try again.").
Proof. reflexivity. Qed.

Lemma editImage_unfold parse net config request :
  editImage parse net config request =
  try_catch (bind (callAPI parse net config (endpointFor config) (editPayload request))
                  readImages)
            (rethrow "Error editing image:" "Failed to edit image. Please try again.").
Proof. reflexivity. Qed.

(** What [segmentImage] does with the reply. *)
Definition parseText (parseS : string -> JSError + SegmentationResponse)
    (response : APIResponse) : Async SegmentationResponse :=
  responseText <- readText response ;;
  match responseText with
  | Some responseText =>
      if negb (JS.truthy responseText) then
        throw (Error "No text content in response")
      else await (parseS responseText)
  | None => throw (Error "No text content in response")
  end.

Lemma framed_parseText parseS response : framed (parseText parseS response).
Proof. unfold parseText. framed_steps. Qed.
#[local] Hint Resolve framed_parseText : framed.

Lemma segmentImage_unfold parse parseS net config request :
  segmentImage parse parseS net config request =
  try_catch (bind (callAPI parse net config (endpointFor config) (segmentPayload request))
                  (parseText parseS))
            (rethrow "Error segmenting image:" "Failed to segment image. Please try again.").
Proof. reflexivity. Qed.

(** A method run from any world, from its run from the empty one. *)
Lemma run_from {A} (m : Async A) w :
  framed m ->
  fst (m w) = outcome m
  /\ console (snd (m w)) = console w ++ printed m
  /\ sent (snd (m w)) = sent w ++ requested m.
Proof. intros H. by rewrite (H w). Qed.

(** ** Endpoint selection *)

Lemma append_inj_l (s a b : string) : s +:+ a = s +:+ b -> a = b.
Proof. induction s as [|c s IH]; simpl; [done|]. intros [= H]. by apply IH. Qed.

Lemma requested_generateImage parse net config request :
  requested (generateImage parse net config request)
  = [requestFor config (endpointFor config) (generatePayload request)].
Proof.
  rewrite generateImage_unfold, requested_guarded, requested_bind by eauto with framed.
  rewrite callAPI_requested.
  destruct (outcome _); [|done]. by destruct (readImages_silent a) as [_ ->].
Qed.

Lemma requested_editImage parse net config request :
  requested (editImage parse net config request)
  = [requestFor config (endpointFor config) (editPayload request)].
Proof.
  rewrite editImage_unfold, requested_guarded, requested_bind by eauto with framed.
  rewrite callAPI_requested.
  destruct (outcome _); [|done]. by destruct (readImages_silent a) as [_ ->].
Qed.

Lemma parseText_silent parseS response :
  printed (parseText parseS response) = [] /\ requested (parseText parseS response) = [].
Proof.
  unfold parseText.
  rewrite printed_bind, requested_bind by (try intros; framed_steps).
  destruct (readText_silent response) as [-> ->].
  destruct (outcome (readText response)) as [[t|]|]; [|done..].
  destruct (negb (JS.truthy t)); [done|].
  by destruct (parseS t).
Qed.

Lemma requested_segmentImage parse parseS net config request :
  requested (segmentImage parse parseS net config request)
  = [requestFor config (endpointFor config) (segmentPayload request)].
Proof.
  rewrite segmentImage_unfold, requested_guarded, requested_bind by eauto with framed.
  rewrite callAPI_requested.
  destruct (outcome _); [|done]. by destruct (parseText_silent parseS a) as [_ ->].
Qed.

(** C2. Each of [generateImage], [editImage] and [segmentImage] sends exactly
    one request, to the base URL followed by the endpoint; the endpoint is
    [/v1/chat/completions] if and only if the base URL contains [openai.com],
    and [/v1beta/models/{model}:generateContent] otherwise. *)
Theorem C2_endpoint_by_base_url
    (parse : string -> JSError + ErrorObject)
    (parseS : string -> JSError + SegmentationResponse)
    (net : Network) (config : APIConfig) (w : World)
    (g : GenerationRequest) (e : EditRequest) (s : SegmentationRequest) :
  let endpoint :=
    if JS.includes (baseUrl config) "openai.com"
    then "/v1/chat/completions"
    else "/v1beta/models/" +:+ modelName config +:+ ":generateContent" in
  (exists rq, sent (snd (generateImage parse net config g w)) = sent w ++ [rq]
              /\ url rq = baseUrl config +:+ endpoint)
  /\ (exists rq, sent (snd (editImage parse net config e w)) = sent w ++ [rq]
                 /\ url rq = baseUrl config +:+ endpoint)
  /\ (exists rq, sent (snd (segmentImage parse parseS net config s w)) = sent w ++ [rq]
                 /\ url rq = baseUrl config +:+ endpoint)
  /\ (endpoint = "/v1/chat/completions"
      <-> JS.includes (baseUrl config) "openai.com" = true)
  /\ (endpoint = "/v1beta/models/" +:+ modelName config +:+ ":generateContent"
      <-> JS.includes (baseUrl config) "openai.com" = false).
Proof.
  intros endpoint.
  assert (Hep : endpointFor config = endpoint) by reflexivity.
  repeat split.
  - eexists. split.
    + destruct (run_from _ w (framed_generateImage parse net config g)) as (_ & _ & ->).
      by rewrite requested_generateImage.
    + by rewrite <- Hep.
  - eexists. split.
    + destruct (run_from _ w (framed_editImage parse net config e)) as (_ & _ & ->).
      by rewrite requested_editImage.
    + by rewrite <- Hep.
  - eexists. split.
    + destruct (run_from _ w (framed_segmentImage parse parseS net config s)) as (_ & _ & ->).
      by rewrite requested_segmentImage.
    + by rewrite <- Hep.
  - subst endpoint. by destruct (JS.includes _ _).
  - subst endpoint. by destruct (JS.includes _ _).
  - subst endpoint. by destruct (JS.includes _ _).
  - subst endpoint. by destruct (JS.includes _ _).
Qed.

(** ** Authentication headers *)

Lemma truthy_trim (s : string) : JS.truthy (JS.trim s) = true -> JS.truthy s = true.
Proof. by destruct s. Qed.

(** The token that counts as configured: present and not blank. *)
Lemma token_given_trim (t : option string) :
  token_given t = match t with
                  | Some s => JS.truthy (JS.trim s)
                  | None => false
                  end.
Proof.
  destruct t as [s|]; [|done]. simpl.
  destruct (JS.truthy (JS.trim s)) eqn:E; [|by rewrite andb_false_r].
  by rewrite (truthy_trim _ E).
Qed.

Lemma chosenHeaders_google config :
  JS.includes (baseUrl config) "googleapis.com" = true ->
  chosenHeaders config !! "x-goog-api-key" = Some (apiKey config)
  /\ chosenHeaders config !! "Authorization" = None.
Proof.
  intros H. unfold chosenHeaders, outcome, chooseAuth. rewrite H.
  destruct (token_given (apiToken config)
            && JS.includes (token_text (apiToken config)) "SAPISID");
    run_step; by simplify_map_eq.
Qed.

Lemma chosenHeaders_other config :
  JS.includes (baseUrl config) "googleapis.com" = false ->
  let authToken :=
    if token_given (apiToken config) then token_text (apiToken config)
    else apiKey config in
  chosenHeaders config !! "Authorization" =
  if JS.truthy authToken && negb (String.eqb authToken "demo-key")
  then Some authToken else None.
Proof.
  intros H authToken. unfold chosenHeaders, outcome, chooseAuth. rewrite H.
  cbv zeta. fold authToken.
  destruct (JS.truthy authToken && negb (String.eqb authToken "demo-key"));
    run_step; [|by simplify_map_eq].
  destruct (JS.startsWith _ _ || JS.startsWith _ _); [|by simplify_map_eq].
  destruct (JS.startsWith _ _); by simplify_map_eq.
Qed.

(** Where [getAuthInfo] reports a token and the token is not [demo-key], the
    token is what [callAPI] sends. *)
Lemma getAuthInfo_token config :
  JS.includes (baseUrl config) "googleapis.com" = false ->
  hasToken (getAuthInfo config) = true ->
  token_text (apiToken config) <> "demo-key" ->
  willUseAuth (getAuthInfo config) = true
  /\ auth_method (getAuthInfo config) = "API Token (Authorization Bearer)"
  /\ chosenHeaders config !! "Authorization" = Some (token_text (apiToken config)).
Proof.
  intros Hurl Htoken Hdemo.
  assert (Ht : token_given (apiToken config) = true).
  { unfold getAuthInfo in Htoken. cbv zeta in Htoken. rewrite Hurl in Htoken.
    destruct (token_given (apiToken config)); [done|].
    by destruct (_ && _ && _) in Htoken. }
  unfold getAuthInfo. cbv zeta. rewrite Hurl, Ht.
  cbn [willUseAuth auth_method]. split; [done|]. split; [done|].
  rewrite (chosenHeaders_other config Hurl). rewrite Ht.
  assert (JS.truthy (token_text (apiToken config)) = true) as ->.
  { unfold token_given, token_text in *. destruct (apiToken config) as [t|]; [|done].
    by apply andb_true_iff in Ht as [Ht _]. }
  by apply String.eqb_neq in Hdemo as ->.
Qed.

(** The value the claim puts in [Authorization] away from Google: the token
    when one is configured non-empty, else the key; none when that value is
    empty or [demo-key]. *)
Definition claimedAuthorization (config : APIConfig) : option string :=
  let value :=
    match apiToken config with
    | Some t => if JS.truthy t then t else apiKey config
    | None => apiKey config
    end in
  if JS.truthy value && negb (String.eqb value "demo-key") then Some value else None.

Definition noParse {A} (s : string) : JSError + A :=
  inl (SyntaxError "Unexpected token").

Definition offline : Network := fun _ => FetchRejected (TypeError "Failed to fetch").

Definition blankTokenConfig : APIConfig :=
  {| baseUrl := "https://api.example.com"; apiKey := "sk-key";
     modelName := "gemini-2.5-flash-image-preview"; apiToken := Some " " |}.

(** C3, as stated, fails for a token of one space: the claim sends the token,
    the code sends the API key. *)
Lemma C3_counterexample :
  JS.includes (baseUrl blankTokenConfig) "googleapis.com" = false
  /\ claimedAuthorization blankTokenConfig = Some " "
  /\ (exists rq,
        sent (snd (callAPI noParse offline blankTokenConfig "/v1beta/models/m:generateContent"
                           {| contents := []; generationConfig := None |} emptyWorld)) = [rq]
        /\ headers rq !! "Authorization" = Some "sk-key").
Proof.
  split; [reflexivity|]. split; [reflexivity|].
  eexists. split; [vm_compute; reflexivity|]. vm_compute. reflexivity.
Qed.

(** C3, amended. The request [callAPI] sends carries, when the base URL contains
    [googleapis.com], the header [x-goog-api-key] set to the API key and no
    [Authorization] header; otherwise [Authorization] is the API token when one
    is configured and not blank (not empty once trimmed), else the API key, and
    the header is left out when that value is empty or equals [demo-key]. *)
Theorem C3_auth_header_amended
    (parse : string -> JSError + ErrorObject) (net : Network) (config : APIConfig)
    (endpoint : string) (payload : APIRequestPayload) (w : World) :
  exists rq,
    sent (snd (callAPI parse net config endpoint payload w)) = sent w ++ [rq]
    /\ if JS.includes (baseUrl config) "googleapis.com" then
         headers rq !! "x-goog-api-key" = Some (apiKey config)
         /\ headers rq !! "Authorization" = None
       else
         let value :=
           match apiToken config with
           | Some t => if JS.truthy (JS.trim t) then t else apiKey config
           | None => apiKey config
           end in
         headers rq !! "Authorization" =
         if JS.truthy value && negb (String.eqb value "demo-key")
         then Some value else None.
Proof.
  exists (requestFor config endpoint payload). split.
  - destruct (run_from _ w (framed_callAPI parse net config endpoint payload))
      as (_ & _ & ->).
    by rewrite callAPI_requested.
  - destruct (JS.includes (baseUrl config) "googleapis.com") eqn:E.
    + by apply chosenHeaders_google.
    + cbn [headers requestFor]. rewrite (chosenHeaders_other config E).
      rewrite token_given_trim. unfold token_text.
      destruct (apiToken config) as [t|]; [|done].
      by destruct (JS.truthy (JS.trim t)).
Qed.

(** ** Reference images in the payload *)

Lemma push_parts_fold (images : list string) (c : GenerationContent)
    (rest : list GenerationContent) :
  fold_left (fun contents image => push_part contents (image_part image))
            images (c :: rest)
  = {| role := role c; parts := parts c ++ map image_part images |} :: rest.
Proof.
  revert c. induction images as [|image images IH]; intros c; simpl.
  - rewrite app_nil_r. by destruct c.
  - rewrite IH. simpl. by rewrite <- app_assoc.
Qed.

Lemma addReferenceImages_parts (referenceImages : option (list string))
    (c : GenerationContent) :
  addReferenceImages referenceImages [c]
  = [ {| role := role c;
         parts := parts c ++ map image_part (default [] referenceImages) |} ].
Proof.
  unfold addReferenceImages. destruct referenceImages as [images|]; simpl.
  - destruct images as [|image images]; simpl.
    + rewrite app_nil_r. by destruct c.
    + rewrite push_parts_fold. simpl. by rewrite <- app_assoc.
  - rewrite app_nil_r. by destruct c.
Qed.

(** The [inline_data] parts of a payload. *)
Definition inlineParts (payload : APIRequestPayload) : list ContentPart :=
  filter (fun part => is_Some (inline_data part))
         (concat (map parts (contents payload))).

Lemma filter_image_parts (images : list string) :
  filter (fun part => is_Some (inline_data part)) (map image_part images)
  = map image_part images.
Proof.
  induction images as [|x l IH]; [done|].
  cbn [map]. rewrite filter_cons_True by (by eexists). by rewrite IH.
Qed.

Definition threeReferences : GenerationRequest :=
  {| prompt := "a cat"; referenceImages := Some ["QQ=="; "Qg=="; "Qw=="];
     temperature := None; seed := None |}.

Definition plainConfig : APIConfig :=
  {| baseUrl := "https://generativelanguage.googleapis.com"; apiKey := "AIza-key";
     modelName := "gemini-2.5-flash-image-preview"; apiToken := Some EmptyString |}.

(** C6, as stated, fails for a request with three reference images: the
    payload sent holds three [inline_data] parts. *)
Lemma C6_counterexample :
  exists rq,
    sent (snd (generateImage noParse offline plainConfig threeReferences emptyWorld)) = [rq]
    /\ inlineParts (body rq) = map image_part ["QQ=="; "Qg=="; "Qw=="]
    /\ ~ (length (inlineParts (body rq)) <= 2)%nat.
Proof.
  eexists. split; [vm_compute; reflexivity|].
  split; [vm_compute; reflexivity|]. vm_compute. lia.
Qed.

(** C6, amended. The payload of a generation request holds, after the prompt,
    one [inline_data] part for each element of [referenceImages], in order; the
    payload of an edit request holds them after the instruction and the
    original image and before the mask.  The service applies no bound of its
    own: the parts are at most 2 when the request carries at most 2 images. *)
Theorem C6_reference_parts_amended
    (parse : string -> JSError + ErrorObject) (net : Network) (config : APIConfig)
    (w : World) (g : GenerationRequest) (e : EditRequest) :
  (exists rq,
     sent (snd (generateImage parse net config g w)) = sent w ++ [rq]
     /\ contents (body rq) =
        [ {| role := Some "user";
             parts := {| text := Some (prompt g); inline_data := None |}
                      :: map image_part (default [] (referenceImages g)) |} ]
     /\ length (inlineParts (body rq)) = length (default [] (referenceImages g)))
  /\ (exists rq,
        sent (snd (editImage parse net config e w)) = sent w ++ [rq]
        /\ contents (body rq) =
           [ {| role := Some "user";
                parts := [ {| text := Some (buildEditPrompt e); inline_data := None |};
                           image_part (originalImage e) ]
                         ++ map image_part (default [] (edit_referenceImages e))
                         ++ match maskImage e with
                            | Some m => if JS.truthy m then [image_part m] else []
                            | None => []
                            end |} ]).
Proof.
  split.
  - exists (requestFor config (endpointFor config) (generatePayload g)).
    split; [|split].
    + destruct (run_from _ w (framed_generateImage parse net config g)) as (_ & _ & ->).
      by rewrite requested_generateImage.
    + cbn [body requestFor]. unfold generatePayload. cbv zeta. cbn [contents].
      by rewrite addReferenceImages_parts.
    + cbn [body requestFor]. unfold inlineParts, generatePayload. cbv zeta.
      cbn [contents]. rewrite addReferenceImages_parts.
      cbn [map concat parts role app]. rewrite app_nil_r.
      rewrite filter_cons_False by (by intros [? [=]]).
      by rewrite filter_image_parts, length_map.
  - exists (requestFor config (endpointFor config) (editPayload e)). split.
    + destruct (run_from _ w (framed_editImage parse net config e)) as (_ & _ & ->).
      by rewrite requested_editImage.
    + cbn [body requestFor]. unfold editPayload. cbv zeta. cbn [contents].
      rewrite addReferenceImages_parts. cbn [role parts].
      destruct (maskImage e) as [m|]; [destruct (JS.truthy m)|];
        simpl; by rewrite ?app_nil_r, <- ?app_assoc.
Qed.

(** ** Reading images off a reply *)

(** The image a part of a reply carries: [inlineData.data], when it is there
    and not empty. *)
Definition imageOf (part : ResponsePart) : option string :=
  match inlineData part with
  | Some d =>
      match inlineData_data d with
      | Some s => if JS.truthy s then Some s else None
      | None => None
      end
  | None => None
  end.

Lemma pushInlineImages_omap (parts : list ResponsePart) (images : list string) :
  pushInlineImages parts images = images ++ omap imageOf parts.
Proof.
  unfold pushInlineImages. revert images.
  induction parts as [|part parts IH]; intros images; simpl.
  - by rewrite app_nil_r.
  - rewrite IH. unfold imageOf.
    destruct (inlineData part) as [d|]; [|done].
    destruct (inlineData_data d) as [s|]; [|done].
    destruct (JS.truthy s); [|done]. by rewrite <- app_assoc.
Qed.

(** The content of a choice that counts: [message.content], when not empty. *)
Definition contentOf (choice : Choice) : list string :=
  match message choice with
  | Some m =>
      match message_content m with
      | Some c => if JS.truthy c then [c] else []
      | None => []
      end
  | None => []
  end.

Lemma outcome_readImages (response : APIResponse) :
  outcome (readImages response) =
  match candidateParts response with
  | Some parts => Resolved (omap imageOf parts)
  | None =>
      match firstChoice response with
      | Some choice => Resolved (contentOf choice)
      | None => Rejected (Error "Invalid response format from API")
      end
  end.
Proof.
  unfold readImages, contentOf. cbv zeta.
  destruct (candidateParts response) as [parts|].
  - unfold outcome, ret. simpl. by rewrite pushInlineImages_omap.
  - by repeat case_match.
Qed.

(** What a method whose reply is [response] settles to. *)
Lemma outcome_guarded_call {A} parse net config endpoint payload
    (reader : APIResponse -> Async A) label message r response :
  (forall response, framed (reader response)) ->
  net (requestFor config endpoint payload) = FetchResponse r ->
  ok r = true ->
  response_json r = inr response ->
  outcome (try_catch (bind (callAPI parse net config endpoint payload) reader)
                     (rethrow label message))
  = match outcome (reader response) with
    | Resolved a => Resolved a
    | Rejected _ => Rejected (Error message)
    end.
Proof.
  intros Hreader Hnet Hok Hjson.
  rewrite outcome_guarded, outcome_bind by eauto with framed.
  by rewrite (callAPI_ok _ _ _ _ _ _ _ Hnet Hok Hjson).
Qed.

(** A provider that answers every request with status 200 and [response]. *)
Definition replying (response : APIResponse) : Network :=
  fun _ => FetchResponse {| status := 200; statusText := "OK";
                            response_text := inr EmptyString;
                            response_json := inr response |}.

(** The images the claim reads off a reply: the [inlineData.data] strings of
    the parts of a reply of the first shape, else the content of the message
    of a reply of the second shape, else none (the method rejects). *)
Definition claimedData (part : ResponsePart) : option string :=
  match inlineData part with
  | Some d => inlineData_data d
  | None => None
  end.

Definition claimedContent (response : APIResponse) : option string :=
  match firstChoice response with
  | Some choice =>
      match message choice with
      | Some m => message_content m
      | None => None
      end
  | None => None
  end.

Definition claimedImages (response : APIResponse) : option (list string) :=
  match candidateParts response with
  | Some parts => Some (omap claimedData parts)
  | None =>
      match claimedContent response with
      | Some c => Some [c]
      | None => None
      end
  end.

Definition emptyContentReply : APIResponse :=
  {| candidates := None;
     choices := Some [ {| message := Some {| message_content := Some EmptyString |} |} ] |}.

Definition catRequest : GenerationRequest :=
  {| prompt := "a cat"; referenceImages := None; temperature := None; seed := None |}.

Definition hatRequest : EditRequest :=
  {| instruction := "add a hat"; originalImage := "QQ=="; edit_referenceImages := None;
     maskImage := None; edit_temperature := None; edit_seed := None |}.

(** C1, as stated, fails for a reply of the second shape whose message
    content is the empty string: the claim returns that content as the single
    element (and would reject were the content taken as missing), the code
    resolves with the empty array. *)
Lemma C1_counterexample :
  claimedImages emptyContentReply = Some [EmptyString]
  /\ fst (generateImage noParse (replying emptyContentReply) plainConfig catRequest emptyWorld)
     = Resolved []
  /\ fst (editImage noParse (replying emptyContentReply) plainConfig hatRequest emptyWorld)
     = Resolved [].
Proof. repeat split; vm_compute; reflexivity. Qed.

(** What the two image methods settle with for a parsed reply [response];
    [message] is the message of the method. *)
Definition imagesRead (message : string) (response : APIResponse)
    : Settled (list string) :=
  match candidateParts response with
  | Some parts => Resolved (omap imageOf parts)
  | None =>
      match firstChoice response with
      | Some choice => Resolved (contentOf choice)
      | None => Rejected (Error message)
      end
  end.

(** C1, amended. Each of [generateImage] and [editImage], when the reply to
    its own request has a status in 200..299 and a body that parses to
    [response], settles as follows: if
    [response.candidates[0].content.parts] is there, it resolves with the
    non-empty [inlineData.data] strings of those parts, in order; otherwise,
    if [response.choices[0]] is there, it resolves with the message content
    as the single element when it is present and not empty, and with the
    empty array when it is not; otherwise it rejects, with the message of the
    method.  Nothing is assumed about the replies to other requests. *)
Theorem C1_read_images_amended
    (parse : string -> JSError + ErrorObject) (net : Network) (config : APIConfig)
    (w : World) :
  (forall (g : GenerationRequest) (r : HttpResponse) (response : APIResponse),
     net (requestFor config (endpointFor config) (generatePayload g)) = FetchResponse r ->
     ok r = true ->
     response_json r = inr response ->
     fst (generateImage parse net config g w)
     = imagesRead "Failed to generate image. Please try again." response)
  /\ (forall (e : EditRequest) (r : HttpResponse) (response : APIResponse),
        net (requestFor config (endpointFor config) (editPayload e)) = FetchResponse r ->
        ok r = true ->
        response_json r = inr response ->
        fst (editImage parse net config e w)
        = imagesRead "Failed to edit image. Please try again." response).
Proof.
  split.
  - intros g r response Hg Hok Hjson.
    destruct (run_from _ w (framed_generateImage parse net config g)) as (-> & _).
    rewrite generateImage_unfold.
    rewrite (outcome_guarded_call _ _ _ _ _ _ _ _ r response) by eauto with framed.
    rewrite outcome_readImages. unfold imagesRead. by repeat case_match.
  - intros e r response He Hok Hjson.
    destruct (run_from _ w (framed_editImage parse net config e)) as (-> & _).
    rewrite editImage_unfold.
    rewrite (outcome_guarded_call _ _ _ _ _ _ _ _ r response) by eauto with framed.
    rewrite outcome_readImages. unfold imagesRead. by repeat case_match.
Qed.

Definition textOnlyReply : APIResponse :=
  {| candidates :=
       Some [ {| candidate_content :=
                   Some {| content_parts :=
                             Some [ {| part_text := Some "Here is your image.";
                                       inlineData := None |} ] |} |} ];
     choices := None |}.

Definition imageReply : APIResponse :=
  {| candidates :=
       Some [ {| candidate_content :=
                   Some {| content_parts :=
                             Some [ {| part_text := Some "Here is your image.";
                                       inlineData := None |};
                                    {| part_text := None;
                                       inlineData :=
                                         Some {| inlineData_data := Some "QUJD" |} |};
                                    {| part_text := None;
                                       inlineData :=
                                         Some {| inlineData_data := Some EmptyString |}
                                    |} ] |} |} ];
     choices := None |}.

Definition okReply (response : APIResponse) : HttpResponse :=
  {| status := 200; statusText := "OK"; response_text := inr EmptyString;
     response_json := inr response |}.

(** A provider that answers a request of a single part with a picture, and
    no other request. *)
Definition textToPicture : Network :=
  fun request =>
    match contents (body request) with
    | [ {| parts := [ _ ] |} ] => FetchResponse (okReply imageReply)
    | _ => FetchRejected (TypeError "Failed to fetch")
    end.

Lemma C1_read_images_amended_witness :
  fst (generateImage noParse textToPicture plainConfig catRequest emptyWorld)
  = Resolved ["QUJD"]
  /\ fst (editImage noParse (replying textOnlyReply) plainConfig hatRequest emptyWorld)
     = Resolved [].
Proof.
  split.
  - exact (proj1 (C1_read_images_amended noParse textToPicture plainConfig emptyWorld)
             catRequest (okReply imageReply) imageReply eq_refl eq_refl eq_refl).
  - exact (proj2 (C1_read_images_amended noParse (replying textOnlyReply) plainConfig
                    emptyWorld)
             hatRequest (okReply textOnlyReply) textOnlyReply eq_refl eq_refl eq_refl).
Defined.

(** A part that carries no image: no [inlineData], or one without data. *)
Definition noInlineImage (part : ResponsePart) : Prop :=
  match inlineData part with
  | Some d =>
      match inlineData_data d with
      | Some s => JS.truthy s = false
      | None => True
      end
  | None => True
  end.

Lemma omap_imageOf_nil (parts : list ResponsePart) :
  Forall noInlineImage parts -> omap imageOf parts = [].
Proof.
  induction 1 as [|part parts Hpart _ IH]; [done|].
  change (omap imageOf (part :: parts))
    with (match imageOf part with
          | Some image => image :: omap imageOf parts
          | None => omap imageOf parts
          end).
  rewrite IH. unfold noInlineImage in Hpart. unfold imageOf.
  destruct (inlineData part) as [d|]; [|done].
  destruct (inlineData_data d) as [s|]; [|done].
  by rewrite Hpart.
Qed.

(** C10. When the reply to the request of [generateImage], or of
    [editImage], is of the candidates/parts shape and none of its parts
    carries an [inlineData] image, that method resolves with the empty array:
    it does not reject.  Nothing is assumed about the replies to other
    requests. *)
Theorem C10_no_image_resolves_empty
    (parse : string -> JSError + ErrorObject) (net : Network) (config : APIConfig)
    (w : World) :
  (forall (g : GenerationRequest) (r : HttpResponse) (response : APIResponse)
          (parts : list ResponsePart),
     net (requestFor config (endpointFor config) (generatePayload g)) = FetchResponse r ->
     ok r = true ->
     response_json r = inr response ->
     candidateParts response = Some parts ->
     Forall noInlineImage parts ->
     fst (generateImage parse net config g w) = Resolved [])
  /\ (forall (e : EditRequest) (r : HttpResponse) (response : APIResponse)
             (parts : list ResponsePart),
        net (requestFor config (endpointFor config) (editPayload e)) = FetchResponse r ->
        ok r = true ->
        response_json r = inr response ->
        candidateParts response = Some parts ->
        Forall noInlineImage parts ->
        fst (editImage parse net config e w) = Resolved []).
Proof.
  split.
  - intros g r response parts Hg Hok Hjson Hparts Hnone.
    destruct (run_from _ w (framed_generateImage parse net config g)) as (-> & _).
    rewrite generateImage_unfold.
    rewrite (outcome_guarded_call _ _ _ _ _ _ _ _ r response) by eauto with framed.
    by rewrite outcome_readImages, Hparts, omap_imageOf_nil.
  - intros e r response parts He Hok Hjson Hparts Hnone.
    destruct (run_from _ w (framed_editImage parse net config e)) as (-> & _).
    rewrite editImage_unfold.
    rewrite (outcome_guarded_call _ _ _ _ _ _ _ _ r response) by eauto with framed.
    by rewrite outcome_readImages, Hparts, omap_imageOf_nil.
Qed.

Definition textOnlyParts : list ResponsePart :=
  [ {| part_text := Some "Here is your image."; inlineData := None |} ].

Lemma C10_no_image_resolves_empty_witness :
  candidateParts textOnlyReply = Some textOnlyParts
  /\ fst (generateImage noParse (replying textOnlyReply) plainConfig catRequest emptyWorld)
     = Resolved []
  /\ fst (editImage noParse (replying textOnlyReply) plainConfig hatRequest emptyWorld)
     = Resolved [].
Proof.
  split; [reflexivity|]. split.
  - apply (proj1 (C10_no_image_resolves_empty noParse (replying textOnlyReply)
                    plainConfig emptyWorld)
             catRequest (okReply textOnlyReply) textOnlyReply textOnlyParts);
      try reflexivity.
    repeat constructor.
  - apply (proj2 (C10_no_image_resolves_empty noParse (replying textOnlyReply)
                    plainConfig emptyWorld)
             hatRequest (okReply textOnlyReply) textOnlyReply textOnlyParts);
      try reflexivity.
    repeat constructor.
Defined.

(** ** Errors *)

(** The three public methods and their arguments. *)
Inductive Method :=
| Generate (request : GenerationRequest)
| Edit (request : EditRequest)
| Segment (request : SegmentationRequest).

Definition payloadOf (m : Method) : APIRequestPayload :=
  match m with
  | Generate request => generatePayload request
  | Edit request => editPayload request
  | Segment request => segmentPayload request
  end.

(** The label a method passes to [console.error], and the message of the
    error it throws in its [catch] clause. *)
Definition labelOf (m : Method) : string :=
  match m with
  | Generate _ => "Error generating image:"
  | Edit _ => "Error editing image:"
  | Segment _ => "Error segmenting image:"
  end.

Definition messageOf (m : Method) : string :=
  match m with
  | Generate _ => "Failed to generate image. Please try again."
  | Edit _ => "Failed to edit image. Please try again."
  | Segment _ => "Failed to segment image. Please try again."
  end.

Definition rejection {A} (r : Settled A) : option JSError :=
  match r with
  | Resolved _ => None
  | Rejected e => Some e
  end.

(** A call of a method: the error it rejects with, if it does, and the world
    after it. *)
Definition settle (parse : string -> JSError + ErrorObject)
    (parseS : string -> JSError + SegmentationResponse)
    (net : Network) (config : APIConfig) (m : Method) (w : World)
  : option JSError * World :=
  match m with
  | Generate request =>
      let '(r, w') := generateImage parse net config request w in (rejection r, w')
  | Edit request =>
      let '(r, w') := editImage parse net config request w in (rejection r, w')
  | Segment request =>
      let '(r, w') := segmentImage parse parseS net config request w in (rejection r, w')
  end.

Definition firstPart (response : APIResponse) : option ResponsePart :=
  match candidateParts response with
  | Some parts => head parts
  | None => None
  end.

Definition firstMessage (response : APIResponse) : option Message :=
  match firstChoice response with
  | Some choice => message choice
  | None => None
  end.

(** A reply of neither shape, as the method tests for the shapes. *)
Definition unrecognised (m : Method) (response : APIResponse) : Prop :=
  match m with
  | Generate _ | Edit _ => candidateParts response = None /\ firstChoice response = None
  | Segment _ => firstPart response = None /\ firstMessage response = None
  end.

(** [arises ... m e]: during the method [m] the error [e] is thrown, by one of
    the named causes. *)
Inductive arises (parse : string -> JSError + ErrorObject) (net : Network)
    (config : APIConfig) (m : Method) : JSError -> Prop :=
| network_failure e :
    net (requestFor config (endpointFor config) (payloadOf m)) = FetchRejected e ->
    arises parse net config m e
| bad_status r e :
    net (requestFor config (endpointFor config) (payloadOf m)) = FetchResponse r ->
    ok r = false ->
    outcome (callAPI parse net config (endpointFor config) (payloadOf m)) = Rejected e ->
    arises parse net config m e
| unreadable_body r e :
    net (requestFor config (endpointFor config) (payloadOf m)) = FetchResponse r ->
    ok r = true ->
    response_json r = inl e ->
    arises parse net config m e
| unrecognised_shape r response :
    net (requestFor config (endpointFor config) (payloadOf m)) = FetchResponse r ->
    ok r = true ->
    response_json r = inr response ->
    unrecognised m response ->
    arises parse net config m (Error "Invalid response format from API").

Lemma callAPI_unreadable parse net config endpoint payload r e :
  net (requestFor config endpoint payload) = FetchResponse r ->
  ok r = true ->
  response_json r = inl e ->
  outcome (callAPI parse net config endpoint payload) = Rejected e.
Proof.
  intros Hnet Hok Hjson. unfold outcome. run_callAPI.
  rewrite Hnet, Hok. run_more. rewrite Hjson. reflexivity.
Qed.

Lemma outcome_readText (response : APIResponse) :
  outcome (readText response) =
  match firstPart response with
  | Some part => Resolved (part_text part)
  | None =>
      match firstMessage response with
      | Some m => Resolved (message_content m)
      | None => Rejected (Error "Invalid response format from API")
      end
  end.
Proof. unfold readText, firstPart, firstMessage. by repeat case_match. Qed.

Lemma outcome_parseText parseS (response : APIResponse) :
  outcome (parseText parseS response) =
  match outcome (readText response) with
  | Resolved (Some t) =>
      if JS.truthy t
      then match parseS t with
           | inl e => Rejected e
           | inr v => Resolved v
           end
      else Rejected (Error "No text content in response")
  | Resolved None => Rejected (Error "No text content in response")
  | Rejected e => Rejected e
  end.
Proof.
  unfold parseText. rewrite outcome_bind by (try intros; framed_steps).
  destruct (outcome (readText response)) as [[t|]|]; [|done..].
  destruct (JS.truthy t); [|done]. by destruct (parseS t).
Qed.

(** The block of a method rejects with the error that arises. *)
Lemma block_rejects {A} parse net config m (reader : APIResponse -> Async A) orig :
  (forall response, framed (reader response)) ->
  (forall response, unrecognised m response ->
     outcome (reader response) = Rejected (Error "Invalid response format from API")) ->
  arises parse net config m orig ->
  outcome (bind (callAPI parse net config (endpointFor config) (payloadOf m)) reader)
  = Rejected orig.
Proof.
  intros Hframed Hshape Harises.
  rewrite outcome_bind by eauto with framed.
  destruct Harises as [e Hnet|r e Hnet Hok Hout|r e Hnet Hok Hjson
                      |r response Hnet Hok Hjson Hun].
  - by rewrite (callAPI_network_failure _ _ _ _ _ _ Hnet).
  - by rewrite Hout.
  - by rewrite (callAPI_unreadable _ _ _ _ _ _ _ Hnet Hok Hjson).
  - rewrite (callAPI_ok _ _ _ _ _ _ _ Hnet Hok Hjson). by apply Hshape.
Qed.

Lemma guarded_rejects {A} (block : Async A) label message orig w :
  framed block ->
  outcome block = Rejected orig ->
  try_catch block (rethrow label message) w
  = (Rejected (Error message),
     extend w (printed block ++ [console_error [AStr label; AError orig]])
            (requested block)).
Proof.
  intros Hb Hout.
  assert (Hf : framed (try_catch block (@rethrow A label message)))
    by eauto with framed.
  rewrite (Hf w).
  by rewrite outcome_guarded, printed_guarded, requested_guarded, Hout.
Qed.

Lemma silent_after {A} (reader : APIResponse -> Async A) (o : Settled APIResponse) :
  (forall a, printed (reader a) = [] /\ requested (reader a) = []) ->
  match o with Resolved a => printed (reader a) | Rejected _ => [] end = []
  /\ match o with Resolved a => requested (reader a) | Rejected _ => [] end = [].
Proof. intros H. destruct o as [a|]; [apply H | done]. Qed.

(** A method whose block rejects with [orig]. *)
Lemma method_rejects parse parseS net config m orig w :
  match m with
  | Generate _ | Edit _ =>
      outcome (bind (callAPI parse net config (endpointFor config) (payloadOf m))
                    readImages) = Rejected orig
  | Segment _ =>
      outcome (bind (callAPI parse net config (endpointFor config) (payloadOf m))
                    (parseText parseS)) = Rejected orig
  end ->
  settle parse parseS net config m w
  = (Some (Error (messageOf m)),
     extend w
       (printed (callAPI parse net config (endpointFor config) (payloadOf m))
        ++ [console_error [AStr (labelOf m); AError orig]])
       [requestFor config (endpointFor config) (payloadOf m)]).
Proof.
  intros Hout. destruct m as [g|e|s]; cbn [settle labelOf messageOf payloadOf] in *.
  - rewrite generateImage_unfold.
    erewrite guarded_rejects; [|by eauto with framed|exact Hout].
    rewrite requested_bind, printed_bind, callAPI_requested by eauto with framed.
    destruct (silent_after readImages (outcome (callAPI parse net config
                (endpointFor config) (generatePayload g))) readImages_silent)
      as [-> ->].
    by rewrite !app_nil_r.
  - rewrite editImage_unfold.
    erewrite guarded_rejects; [|by eauto with framed|exact Hout].
    rewrite requested_bind, printed_bind, callAPI_requested by eauto with framed.
    destruct (silent_after readImages (outcome (callAPI parse net config
                (endpointFor config) (editPayload e))) readImages_silent)
      as [-> ->].
    by rewrite !app_nil_r.
  - rewrite segmentImage_unfold.
    erewrite guarded_rejects; [|by eauto with framed|exact Hout].
    rewrite requested_bind, printed_bind, callAPI_requested by eauto with framed.
    destruct (silent_after (parseText parseS) (outcome (callAPI parse net config
                (endpointFor config) (segmentPayload s))) (parseText_silent parseS))
      as [-> ->].
    by rewrite !app_nil_r.
Qed.

Lemma call_rejects {A} parse net config endpoint payload
    (reader : APIResponse -> Async A) orig :
  (forall response, framed (reader response)) ->
  outcome (callAPI parse net config endpoint payload) = Rejected orig ->
  outcome (bind (callAPI parse net config endpoint payload) reader) = Rejected orig.
Proof. intros Hf Hout. rewrite outcome_bind by eauto with framed. by rewrite Hout. Qed.

(** A status outside 200..299 always makes an error arise. *)
Lemma bad_status_arises parse net config m r :
  net (requestFor config (endpointFor config) (payloadOf m)) = FetchResponse r ->
  ok r = false ->
  exists e, arises parse net config m e.
Proof.
  intros Hnet Hok.
  destruct (callAPI_not_ok parse net config _ _ r Hnet Hok) as [e He].
  exists e. by eapply bad_status.
Qed.

(** C4. When an error arises during [generateImage], [editImage] or
    [segmentImage] (the network fails, the status is not ok, the body cannot
    be read, or the reply has neither shape), the method prints the original
    error with [console.error] and then rejects with its own generic message:
    [Failed to generate image. Please try again.], [Failed to edit image.
    Please try again.] or [Failed to segment image. Please try again.]. *)
Theorem C4_errors_are_generic
    (parse : string -> JSError + ErrorObject)
    (parseS : string -> JSError + SegmentationResponse)
    (net : Network) (config : APIConfig) (w : World) (m : Method) (orig : JSError) :
  arises parse net config m orig ->
  exists before,
    settle parse parseS net config m w
    = (Some (Error (messageOf m)),
       extend w (before ++ [console_error [AStr (labelOf m); AError orig]])
              [requestFor config (endpointFor config) (payloadOf m)]).
Proof.
  intros Harises. eexists. apply method_rejects.
  destruct m as [g|e|s].
  - apply (block_rejects parse net config (Generate g) readImages orig);
      [eauto with framed| |exact Harises].
    intros response [H1 H2]. by rewrite outcome_readImages, H1, H2.
  - apply (block_rejects parse net config (Edit e) readImages orig);
      [eauto with framed| |exact Harises].
    intros response [H1 H2]. by rewrite outcome_readImages, H1, H2.
  - apply (block_rejects parse net config (Segment s) (parseText parseS) orig);
      [eauto with framed| |exact Harises].
    intros response [H1 H2].
    by rewrite outcome_parseText, outcome_readText, H1, H2.
Qed.

Lemma C4_errors_are_generic_witness :
  exists before,
    settle noParse noParse offline plainConfig (Generate catRequest) emptyWorld
    = (Some (Error "Failed to generate image. Please try again."),
       extend emptyWorld
         (before ++ [console_error [AStr "Error generating image:";
                                    AError (TypeError "Failed to fetch")]])
         [requestFor plainConfig (endpointFor plainConfig) (generatePayload catRequest)]).
Proof.
  apply (C4_errors_are_generic noParse noParse offline plainConfig emptyWorld
           (Generate catRequest) (TypeError "Failed to fetch")).
  apply network_failure. reflexivity.
Defined.

(** Whatever happens, a method that rejects rejects with its own message. *)
Lemma rejection_is_generic parse parseS net config m w :
  fst (settle parse parseS net config m w) = None
  \/ fst (settle parse parseS net config m w) = Some (Error (messageOf m)).
Proof.
  destruct m as [g|e|s]; cbn [settle messageOf].
  - rewrite (framed_generateImage parse net config g w), generateImage_unfold.
    rewrite outcome_guarded by eauto with framed.
    destruct (outcome _); [by left | by right].
  - rewrite (framed_editImage parse net config e w), editImage_unfold.
    rewrite outcome_guarded by eauto with framed.
    destruct (outcome _); [by left | by right].
  - rewrite (framed_segmentImage parse parseS net config s w), segmentImage_unfold.
    rewrite outcome_guarded by eauto with framed.
    destruct (outcome _); [by left | by right].
Qed.

(** ** Status 429 *)

(** The message of the error [callAPI] throws on status 429. *)
Definition quotaMessage (retryDelay : string) : string :=
  "API配额已达限制，请等待 " +:+ retryDelay +:+ " 后重试，或考虑升级API计划".

Definition retryBody : ErrorObject :=
  {| error :=
       Some {| details :=
                 Some [ {| at_type := Some "type.googleapis.com/google.rpc.RetryInfo";
                           retryDelay := Some "30s" |} ] |} |}.

(** A provider out of quota: status 429, and a body that parses to
    [retryBody]. *)
Definition outOfQuota : Network :=
  fun _ => FetchResponse {| status := 429; statusText := "Too Many Requests";
                            response_text := inr "RESOURCE_EXHAUSTED";
                            response_json := inl (SyntaxError "Unexpected token") |}.

Definition parseRetryBody (s : string) : JSError + ErrorObject := inr retryBody.

(** A line of the console, or the error it shows, speaks of the quota. *)
Definition mentionsQuota (line : LogLine) : bool :=
  let args := match line with console_log args | console_error args => args end in
  existsb (fun arg =>
             match arg with
             | AStr s => JS.includes s "配额"
             | AError (Error s) | AError (TypeError s) | AError (SyntaxError s) =>
                 JS.includes s "配额"
             | _ => false
             end) args.

(** C5, as stated, fails.  With status 429 and a [RetryInfo] detail whose
    [retryDelay] is [30s], the error the method rejects with is the generic
    one, and does not hold the delay.  With status 429 and a body that is not
    JSON, [JSON.parse] throws: the method rejects with the generic error and no
    line of the console speaks of the quota. *)
Lemma C5_counterexample :
  (findRetryInfo retryBody ≫= retryDelay = Some "30s"
   /\ fst (settle parseRetryBody noParse outOfQuota plainConfig (Generate catRequest)
                  emptyWorld)
      = Some (Error "Failed to generate image. Please try again.")
   /\ JS.includes "Failed to generate image. Please try again." "30s" = false)
  /\ (fst (settle noParse noParse outOfQuota plainConfig (Generate catRequest) emptyWorld)
      = Some (Error "Failed to generate image. Please try again.")
      /\ existsb mentionsQuota
           (console (snd (settle noParse noParse outOfQuota plainConfig
                                 (Generate catRequest) emptyWorld)))
         = false).
Proof. repeat split; vm_compute; reflexivity. Qed.

(** C5, amended. When the provider answers [generateImage], [editImage] or
    [segmentImage] with status 429, and the body of the reply parses as JSON
    with a [RetryInfo] detail that carries a non-empty [retryDelay], the method
    prints that delay to the console as the advised waiting time, prints the
    rate-limit error whose message holds the delay with [console.error], and
    rejects with its generic message. *)
Theorem C5_rate_limit_amended
    (parse : string -> JSError + ErrorObject)
    (parseS : string -> JSError + SegmentationResponse)
    (net : Network) (config : APIConfig) (w : World) (m : Method)
    (r : HttpResponse) (errorData : string) (errorObj : ErrorObject)
    (detail : ErrorDetail) (delay : string) :
  net (requestFor config (endpointFor config) (payloadOf m)) = FetchResponse r ->
  status r = 429%Z ->
  response_text r = inr errorData ->
  parse errorData = inr errorObj ->
  findRetryInfo errorObj = Some detail ->
  retryDelay detail = Some delay ->
  JS.truthy delay = true ->
  exists before between,
    settle parse parseS net config m w
    = (Some (Error (messageOf m)),
       extend w
         (before
          ++ console_log [AStr "   - 建议等待时间:"; AStr delay]
          :: between
          ++ [console_error [AStr (labelOf m); AError (Error (quotaMessage delay))]])
         [requestFor config (endpointFor config) (payloadOf m)]).
Proof.
  intros Hnet Hstatus Htext Hparse Hfind Hdelay Htruthy.
  assert (Hok : ok r = false) by (unfold ok; rewrite Hstatus; reflexivity).
  destruct (callAPI_429 parse net config _ _ r errorData errorObj
              Hnet Hstatus Htext Hparse) as [Hout Hline].
  assert (Hd : retryDelayOf (findRetryInfo errorObj) = delay).
  { rewrite Hfind. unfold retryDelayOf, or_default. by rewrite Hdelay, Htruthy. }
  rewrite Hd in Hout, Hline. fold (quotaMessage delay) in Hout.
  apply list_elem_of_split in Hline as (before & between & Hprinted).
  exists before, between.
  rewrite (method_rejects parse parseS net config m (Error (quotaMessage delay))).
  - rewrite Hprinted. by rewrite <- app_assoc.
  - destruct m; by apply call_rejects; eauto with framed.
Qed.

Definition retryDetail : ErrorDetail :=
  {| at_type := Some "type.googleapis.com/google.rpc.RetryInfo";
     retryDelay := Some "30s" |}.

Definition quotaReply : HttpResponse :=
  {| status := 429; statusText := "Too Many Requests";
     response_text := inr "RESOURCE_EXHAUSTED";
     response_json := inl (SyntaxError "Unexpected token") |}.

Lemma C5_rate_limit_amended_witness :
  exists before between,
    settle parseRetryBody noParse outOfQuota plainConfig (Generate catRequest) emptyWorld
    = (Some (Error "Failed to generate image. Please try again."),
       extend emptyWorld
         (before
          ++ console_log [AStr "   - 建议等待时间:"; AStr "30s"]
          :: between
          ++ [console_error [AStr "Error generating image:";
                             AError (Error (quotaMessage "30s"))]])
         [requestFor plainConfig (endpointFor plainConfig) (generatePayload catRequest)]).
Proof.
  exact (C5_rate_limit_amended parseRetryBody noParse outOfQuota plainConfig emptyWorld
           (Generate catRequest) quotaReply "RESOURCE_EXHAUSTED" retryBody retryDetail
           "30s" eq_refl eq_refl eq_refl eq_refl eq_refl eq_refl eq_refl).
Defined.


(** ** Segmentation *)

(** [JSON.parse] on two texts: the object with an empty [masks] array, which
    it accepts, and any other text taken here, which it does not. *)
Definition emptyMasksText : string :=
  "{" +:+ JS.quote +:+ "masks" +:+ JS.quote +:+ ":[]}".

Definition parseMasks (s : string) : JSError + SegmentationResponse :=
  if String.eqb s emptyMasksText then inr {| masks := [] |}
  else inl (SyntaxError "Unexpected token").

Definition textReply (t : string) : APIResponse :=
  {| candidates :=
       Some [ {| candidate_content :=
                   Some {| content_parts :=
                             Some [ {| part_text := Some t; inlineData := None |} ] |} |} ];
     choices := None |}.

Definition carRequest : SegmentationRequest :=
  {| image := "QQ=="; query := "the red car" |}.

(** C7, as stated, fails for a reply whose text is not JSON: the text is
    present, [JSON.parse] throws, and the method rejects where the claim has it
    return. *)
Lemma C7_counterexample :
  (firstPart (textReply "not json") ≫= part_text) = Some "not json"
  /\ parseMasks "not json" = inl (SyntaxError "Unexpected token")
  /\ fst (segmentImage noParse parseMasks (replying (textReply "not json")) plainConfig
                       carRequest emptyWorld)
     = Rejected (Error "Failed to segment image. Please try again.").
Proof. repeat split; vm_compute; reflexivity. Qed.

(** C7, amended. For a reply with an ok status whose body parses to
    [response], [segmentImage] takes the text of the first part of the first
    candidate when there is such a part, else the content of the message of
    the first choice when there is such a message, and rejects when there is
    neither; it rejects when that text is missing or empty; otherwise it hands
    the text to [JSON.parse] and resolves with the value parsed, typed without
    any check as a [SegmentationResponse], or rejects when [JSON.parse]
    throws.  Every rejection carries the generic message. *)
Theorem C7_segment_text_amended
    (parse : string -> JSError + ErrorObject)
    (parseS : string -> JSError + SegmentationResponse)
    (net : Network) (config : APIConfig) (w : World) (s : SegmentationRequest)
    (r : HttpResponse) (response : APIResponse) :
  net (requestFor config (endpointFor config) (segmentPayload s)) = FetchResponse r ->
  ok r = true ->
  response_json r = inr response ->
  let generic : Settled SegmentationResponse :=
    Rejected (Error "Failed to segment image. Please try again.") in
  let parsed (t : option string) : Settled SegmentationResponse :=
    match t with
    | Some t =>
        if JS.truthy t
        then match parseS t with
             | inr v => Resolved v
             | inl _ => generic
             end
        else generic
    | None => generic
    end in
  fst (segmentImage parse parseS net config s w)
  = match firstPart response with
    | Some part => parsed (part_text part)
    | None =>
        match firstMessage response with
        | Some m => parsed (message_content m)
        | None => generic
        end
    end.
Proof.
  intros Hnet Hok Hjson generic parsed.
  destruct (run_from _ w (framed_segmentImage parse parseS net config s)) as (-> & _).
  rewrite segmentImage_unfold.
  rewrite (outcome_guarded_call _ _ _ _ _ _ _ _ r response) by eauto with framed.
  rewrite outcome_parseText, outcome_readText. subst parsed generic.
  destruct (firstPart response) as [part|].
  - destruct (part_text part) as [t|]; [|done].
    destruct (JS.truthy t); [|done]. by destruct (parseS t).
  - destruct (firstMessage response) as [m|]; [|done].
    destruct (message_content m) as [t|]; [|done].
    destruct (JS.truthy t); [|done]. by destruct (parseS t).
Qed.

Lemma C7_segment_text_amended_witness :
  fst (segmentImage noParse parseMasks (replying (textReply emptyMasksText)) plainConfig
                    carRequest emptyWorld)
  = Resolved {| masks := [] |}.
Proof.
  exact (C7_segment_text_amended noParse parseMasks (replying (textReply emptyMasksText))
           plainConfig emptyWorld carRequest (okReply (textReply emptyMasksText))
           (textReply emptyMasksText) eq_refl eq_refl eq_refl).
Defined.

(** ** The configuration of a service *)

Module HeapFacts.
Import Heap.

Lemma alloc_fresh (o : Obj) (h : heap) :
  h !! (alloc o h).1 = None /\ (alloc o h).2 = <[(alloc o h).1 := o]> h.
Proof.
  unfold alloc. simpl. split; [|done].
  apply not_elem_of_dom. apply is_fresh.
Qed.

Lemma configOf_service (this : loc) (h : heap) (c : ConfigObject) :
  configOf this h = Some c ->
  exists l, h !! this = Some (ServiceObj l) /\ h !! l = Some (ConfigObj c).
Proof.
  unfold configOf. intros H.
  destruct (h !! this) as [[l|]|] eqn:E1; try done.
  destruct (h !! l) as [[|c']|] eqn:E2; try done.
  exists l. by simplify_eq.
Qed.

Lemma configOf_setConfig (this : loc) (h : heap) (c : ConfigObject)
    (p : PartialAPIConfig) :
  configOf this h = Some c ->
  configOf this (setConfig this p h) = Some (spread c p).
Proof.
  intros H. unfold setConfig. rewrite H.
  destruct (configOf_service _ _ _ H) as (l0 & Hthis & _).
  destruct (alloc_fresh (ConfigObj (spread c p)) h) as [Hfresh Hh].
  destruct (alloc (ConfigObj (spread c p)) h) as [l h'] eqn:E. simpl in *. subst h'.
  assert (l <> this) by (intros ->; congruence).
  unfold configOf. rewrite lookup_insert_eq.
  rewrite lookup_insert_ne by done. by rewrite lookup_insert_eq.
Qed.

(** [setConfig] touches no object but the service itself. *)
Lemma setConfig_others (this l : loc) (h : heap) (p : PartialAPIConfig) (o : Obj) :
  l <> this -> h !! l = Some o -> setConfig this p h !! l = Some o.
Proof.
  intros Hne Hl. unfold setConfig.
  destruct (configOf this h) as [c|]; [|done].
  destruct (alloc_fresh (ConfigObj (spread c p)) h) as [Hfresh Hh].
  destruct (alloc (ConfigObj (spread c p)) h) as [l' h'] eqn:E. simpl in *. subst h'.
  rewrite lookup_insert_ne by done.
  rewrite lookup_insert_ne by (intros ->; congruence). done.
Qed.

Lemma getConfig_copy (this : loc) (h : heap) (c : ConfigObject) :
  configOf this h = Some c ->
  exists l h',
    getConfig this h = Some (l, h')
    /\ h !! l = None
    /\ h' = <[l := ConfigObj c]> h
    /\ configOf this h' = Some c.
Proof.
  intros H. unfold getConfig. rewrite H.
  destruct (configOf_service _ _ _ H) as (l0 & Hthis & Hl0).
  destruct (alloc_fresh (ConfigObj c) h) as [Hfresh Hh].
  destruct (alloc (ConfigObj c) h) as [l h'] eqn:E. simpl in *. subst h'.
  exists l, (<[l := ConfigObj c]> h). repeat split; try done.
  unfold configOf.
  rewrite lookup_insert_ne by (intros ->; congruence). rewrite Hthis.
  rewrite lookup_insert_ne by (intros ->; congruence). by rewrite Hl0.
Qed.

Lemma configOf_mutate_copy (this l : loc) (h : heap) (c : ConfigObject)
    (update : ConfigObject -> ConfigObject) :
  configOf this h = Some c ->
  h !! l = None ->
  configOf this (mutate l update (<[l := ConfigObj c]> h)) = Some c.
Proof.
  intros H Hfresh.
  destruct (configOf_service _ _ _ H) as (l0 & Hthis & Hl0).
  unfold mutate. rewrite lookup_insert_eq, insert_insert_eq.
  unfold configOf.
  rewrite lookup_insert_ne by (intros ->; congruence). rewrite Hthis.
  rewrite lookup_insert_ne by (intros ->; congruence). by rewrite Hl0.
Qed.

End HeapFacts.

(** C9. For a service whose configuration is [c]: after [setConfig(p)] each
    field of the configuration is the one supplied in [p] when [p] supplies
    it (a string, or [undefined] when [p] holds the field with that value),
    and the one of [c] when it does not; [getConfig] returns a new object
    with the fields of [c], and whatever is then assigned to the fields of that
    object, the configuration of the service stays [c]. *)
Theorem C9_config_frame (this : Heap.loc) (h : gmap Heap.loc Heap.Obj)
    (c : Heap.ConfigObject) (p : PartialAPIConfig) :
  Heap.configOf this h = Some c ->
  (exists c',
     Heap.configOf this (Heap.setConfig this p h) = Some c'
     /\ Heap.config_baseUrl c' = match baseUrl' p with
                                 | Some supplied => supplied
                                 | None => Heap.config_baseUrl c
                                 end
     /\ Heap.config_apiKey c' = match apiKey' p with
                                | Some supplied => supplied
                                | None => Heap.config_apiKey c
                                end
     /\ Heap.config_modelName c' = match modelName' p with
                                   | Some supplied => supplied
                                   | None => Heap.config_modelName c
                                   end
     /\ Heap.config_apiToken c' = match apiToken' p with
                                  | Some supplied => supplied
                                  | None => Heap.config_apiToken c
                                  end)
  /\ (exists copy h',
        Heap.getConfig this h = Some (copy, h')
        /\ h !! copy = None
        /\ h' !! copy = Some (Heap.ConfigObj c)
        /\ Heap.configOf this h' = Some c
        /\ forall update : Heap.ConfigObject -> Heap.ConfigObject,
             Heap.configOf this (Heap.mutate copy update h') = Some c).
Proof.
  intros H. split.
  - exists (Heap.spread c p). split; [by apply HeapFacts.configOf_setConfig|done].
  - destruct (HeapFacts.getConfig_copy this h c H) as (l & h' & Hget & Hfresh & -> & Hc).
    exists l, (<[l := Heap.ConfigObj c]> h). repeat split; try done.
    + by rewrite lookup_insert_eq.
    + intros update. by apply HeapFacts.configOf_mutate_copy.
Qed.

Definition noEnv : ImportMetaEnv :=
  {| VITE_GEMINI_API_KEY := None; VITE_API_BASE_URL := None;
     VITE_MODEL_NAME := None; VITE_API_TOKEN := None |}.

(** [{ apiKey: 'AIza-key' }] *)
Definition keyOnly : PartialAPIConfig :=
  {| baseUrl' := None; apiKey' := Some (Some "AIza-key"); modelName' := None;
     apiToken' := None |}.

(** [{ apiKey: 'AIza-key', apiToken: undefined }] *)
Definition keyWithoutToken : PartialAPIConfig :=
  {| baseUrl' := None; apiKey' := Some (Some "AIza-key"); modelName' := None;
     apiToken' := Some None |}.

Lemma C9_config_frame_witness :
  let '(this, h) := Heap.constructor noEnv None ∅ in
  Heap.configOf this h = Some (Heap.store (defaultConfig noEnv))
  /\ Heap.config_apiToken (Heap.store (defaultConfig noEnv)) = Some EmptyString
  /\ (exists c',
        Heap.configOf this (Heap.setConfig this keyWithoutToken h) = Some c'
        /\ Heap.config_baseUrl c' = Some "https://generativelanguage.googleapis.com"
        /\ Heap.config_apiKey c' = Some "AIza-key"
        /\ Heap.config_modelName c' = Some "gemini-2.5-flash-image-preview"
        /\ Heap.config_apiToken c' = None)
  /\ (exists copy h',
        Heap.getConfig this h = Some (copy, h')
        /\ h !! copy = None
        /\ h' !! copy = Some (Heap.ConfigObj (Heap.store (defaultConfig noEnv)))
        /\ Heap.configOf this h' = Some (Heap.store (defaultConfig noEnv))
        /\ forall update : Heap.ConfigObject -> Heap.ConfigObject,
             Heap.configOf this (Heap.mutate copy update h')
             = Some (Heap.store (defaultConfig noEnv))).
Proof.
  split; [vm_compute; reflexivity|]. split; [reflexivity|].
  apply (C9_config_frame _ _ (Heap.store (defaultConfig noEnv)) keyWithoutToken).
  vm_compute. reflexivity.
Defined.

(** ** Trimming *)

(** The string after one leading white space, if it starts with one. *)
Definition ws_head (s : string) : option string :=
  match s with
  | String c1 s1 =>
      if JS.ws1 c1 then Some s1
      else match s1 with
           | String c2 s2 =>
               if JS.ws2 c1 c2 then Some s2
               else match s2 with
                    | String c3 s3 => if JS.ws3 c1 c2 c3 then Some s3 else None
                    | EmptyString => None
                    end
           | EmptyString => None
           end
  | EmptyString => None
  end.

Lemma trimStart_cons (c1 : ascii) (s1 : string) :
  JS.trimStart (String c1 s1) =
  if JS.ws1 c1 then JS.trimStart s1
  else match s1 with
       | String c2 s2 =>
           if JS.ws2 c1 c2 then JS.trimStart s2
           else match s2 with
                | String c3 s3 =>
                    if JS.ws3 c1 c2 c3 then JS.trimStart s3 else String c1 s1
                | EmptyString => String c1 s1
                end
       | EmptyString => String c1 s1
       end.
Proof. reflexivity. Qed.

Lemma trimStart_eq (s : string) :
  JS.trimStart s = match ws_head s with
                   | Some rest => JS.trimStart rest
                   | None => s
                   end.
Proof.
  destruct s as [|c1 s1]; [done|].
  rewrite trimStart_cons. cbn [ws_head].
  destruct (JS.ws1 c1); [done|].
  destruct s1 as [|c2 s2]; [done|].
  destruct (JS.ws2 c1 c2); [done|].
  destruct s2 as [|c3 s3]; [done|].
  by destruct (JS.ws3 c1 c2 c3).
Qed.

Lemma ws_head_shorter (s rest : string) :
  ws_head s = Some rest -> (String.length rest < String.length s)%nat.
Proof.
  destruct s as [|c1 [|c2 [|c3 s3]]]; cbn [ws_head];
    repeat case_match; intros; simplify_eq; cbn [String.length]; lia.
Qed.

Lemma ws_head_trimStart (s : string) : ws_head (JS.trimStart s) = None.
Proof.
  remember (String.length s) as n eqn:Hn. revert s Hn.
  induction n as [n IH] using lt_wf_ind. intros s ->.
  rewrite trimStart_eq. destruct (ws_head s) as [rest|] eqn:E; [|done].
  eapply IH; [|reflexivity]. by apply ws_head_shorter.
Qed.

Lemma trimStart_fixed (s : string) : ws_head s = None -> JS.trimStart s = s.
Proof. intros H. by rewrite trimStart_eq, H. Qed.

Lemma truthy_trimEnd (s : string) :
  JS.truthy (JS.trimEnd s) = JS.truthy (JS.trimStart s).
Proof.
  destruct s as [|c s]; [done|].
  cbn [JS.trimEnd]. unfold JS.blank.
  by destruct (JS.truthy (JS.trimStart (String c s))).
Qed.

Lemma trimEnd_cons (c : ascii) (s : string) :
  JS.trimEnd (String c s) = EmptyString
  \/ JS.trimEnd (String c s) = String c (JS.trimEnd s).
Proof. cbn [JS.trimEnd]. destruct (JS.blank _); [by left | by right]. Qed.

Lemma ws_head_trimEnd (s : string) : ws_head s = None -> ws_head (JS.trimEnd s) = None.
Proof.
  destruct s as [|c1 s1]; [done|]. intros H.
  destruct (trimEnd_cons c1 s1) as [-> | ->]; [done|].
  cbn [ws_head] in *. destruct (JS.ws1 c1); [done|].
  destruct s1 as [|c2 s2]; [done|].
  destruct (trimEnd_cons c2 s2) as [-> | ->]; [done|].
  destruct (JS.ws2 c1 c2); [done|].
  destruct s2 as [|c3 s3]; [done|].
  destruct (trimEnd_cons c3 s3) as [-> | ->]; [done|].
  by destruct (JS.ws3 c1 c2 c3).
Qed.

(** A trimmed string starts with no white space, so trimming it again keeps
    it non-empty. *)
Lemma truthy_trim_trim (s : string) :
  JS.truthy (JS.trim (JS.trim s)) = JS.truthy (JS.trim s).
Proof.
  unfold JS.trim at 1. rewrite truthy_trimEnd.
  rewrite (trimStart_fixed (JS.trimStart (JS.trim s))) by apply ws_head_trimStart.
  rewrite (trimStart_fixed (JS.trim s)); [done|].
  unfold JS.trim. apply ws_head_trimEnd, ws_head_trimStart.
Qed.

(** ** The configuration check *)

Module ValidateEnvFacts.
Import ValidateEnv.

Definition trimmed (v : string) : Prop := exists raw, v = JS.trim raw.

Lemma parseLine_trimmed (envVars : gmap string string) (line : string) :
  map_Forall (fun _ v => trimmed v) envVars ->
  map_Forall (fun _ v => trimmed v) (parseLine envVars line).
Proof.
  intros H. unfold parseLine. cbv zeta.
  repeat case_match; try done.
  apply map_Forall_insert_2; [by eexists | done].
Qed.

Lemma parseEnv_trimmed (envContent : string) :
  map_Forall (fun _ v => trimmed v) (parseEnv envContent).
Proof.
  unfold parseEnv.
  assert (H : map_Forall (fun _ v => trimmed v) (∅ : gmap string string))
    by apply map_Forall_empty.
  revert H. generalize (∅ : gmap string string).
  induction (JS.split newline envContent) as [|line lines IH]; intros m H; [done|].
  simpl. apply IH. by apply parseLine_trimmed.
Qed.

Lemma truthy_true (s : string) : JS.truthy s = true <-> s <> EmptyString.
Proof. by destruct s. Qed.

(** A variable of [.env] that is set is not blank. *)
Lemma trimmed_truthy (v : string) :
  trimmed v -> JS.truthy (JS.trim v) = JS.truthy v.
Proof. intros [raw ->]. apply truthy_trim_trim. Qed.

Lemma isValid_if (b : bool) (x y : Run) :
  isValid (if b then x else y) = if b then isValid x else isValid y.
Proof. by destruct b. Qed.

Lemma if_same {A} (b : bool) (x : A) : (if b then x else x) = x.
Proof. by destruct b. Qed.

(** What makes [checkVar] clear [isValid]. *)
Definition refused (envVars : gmap string string) (varConfig : VarConfig) : bool :=
  let value := envVars !! key varConfig in
  (negb (set value)
   || (String.eqb (key varConfig) "VITE_GEMINI_API_KEY"
       && (String.eqb (default EmptyString value) "your_api_key_here"
           || JS.includes (default EmptyString value) "demo")))
  && ((String.eqb (key varConfig) "VITE_GEMINI_API_KEY" && negb (hasApiToken envVars))
      || (String.eqb (key varConfig) "VITE_API_TOKEN" && negb (hasApiKey envVars))
      || required varConfig).

Lemma isValid_checkVar envVars r varConfig :
  isValid (checkVar envVars r varConfig) = isValid r && negb (refused envVars varConfig).
Proof.
  unfold checkVar, refused. cbv zeta.
  destruct (negb (set _) || _); cbn [andb].
  - destruct (String.eqb (key varConfig) "VITE_GEMINI_API_KEY" && _);
      [cbn; by rewrite andb_false_r|].
    destruct (String.eqb (key varConfig) "VITE_API_TOKEN" && _);
      [cbn; by rewrite andb_false_r|].
    destruct (required varConfig); cbn; by rewrite ?andb_false_r, ?andb_true_r.
  - cbn. by rewrite andb_true_r.
Qed.

Lemma isValid_loop envVars (vars : list VarConfig) r :
  isValid (fold_left (checkVar envVars) vars r)
  = isValid r && forallb (fun v => negb (refused envVars v)) vars.
Proof.
  revert r. induction vars as [|v vars IH]; intros r; simpl.
  - by rewrite andb_true_r.
  - by rewrite IH, isValid_checkVar, andb_assoc.
Qed.

Lemma loop_verdict envVars :
  forallb (fun v => negb (refused envVars v)) requiredVars
  = hasApiKey envVars || hasApiToken envVars.
Proof.
  unfold requiredVars, refused. cbn [forallb key required].
  cbn [String.eqb Ascii.eqb Bool.eqb andb orb negb].
  rewrite !andb_false_r, !orb_false_r, !andb_true_r. cbn [negb andb].
  unfold hasApiKey, hasApiToken, set.
  destruct (envVars !! "VITE_GEMINI_API_KEY") as [k|];
    destruct (envVars !! "VITE_API_TOKEN") as [t|]; cbn [default id];
    try destruct (JS.truthy k); try destruct (String.eqb k "your_api_key_here");
    try destruct (JS.includes k "demo");
    try destruct (JS.truthy t); try destruct (JS.truthy (JS.trim t));
    reflexivity.
Qed.

(** The API key is a sample key: what the last test of the script looks for. *)
Definition sampleKey (envVars : gmap string string) : bool :=
  match envVars !! "VITE_GEMINI_API_KEY" with
  | Some k => JS.truthy k && JS.includes k "demo"
  | None => false
  end.

Lemma isValid_print line r : isValid (print line r) = isValid r.
Proof. reflexivity. Qed.

Lemma isValid_checkAuth envVars r :
  isValid (checkAuth envVars r)
  = isValid r && (hasApiKey envVars || hasApiToken envVars).
Proof.
  unfold checkAuth.
  destruct (hasApiKey envVars), (hasApiToken envVars); cbn;
    by rewrite ?andb_true_r, ?andb_false_r.
Qed.

Lemma isValid_detectProvider baseUrl r :
  isValid (detectProvider baseUrl r) = isValid r.
Proof. unfold detectProvider. by repeat case_match. Qed.

Lemma isValid_reportAuth envVars r : isValid (reportAuth envVars r) = isValid r.
Proof. unfold reportAuth. by repeat case_match. Qed.

Lemma isValid_adviseLocal baseUrl r : isValid (adviseLocal baseUrl r) = isValid r.
Proof. unfold adviseLocal. by repeat case_match. Qed.

Lemma isValid_checkSampleKey envVars r :
  isValid (checkSampleKey envVars r) = isValid r && negb (sampleKey envVars).
Proof.
  unfold checkSampleKey, sampleKey.
  destruct (envVars !! "VITE_GEMINI_API_KEY") as [k|]; [|by rewrite andb_true_r].
  destruct (JS.truthy k && JS.includes k "demo"); cbn;
    by rewrite ?andb_true_r, ?andb_false_r.
Qed.

Lemma isValid_verdict r : isValid (verdict r) = isValid r.
Proof. unfold verdict. by destruct (isValid r) eqn:E. Qed.

Lemma isValid_validate (envContent : string) :
  isValid (validate envContent)
  = (hasApiKey (parseEnv envContent) || hasApiToken (parseEnv envContent))
    && negb (sampleKey (parseEnv envContent)).
Proof.
  unfold validate. cbv zeta.
  rewrite isValid_verdict, !isValid_print, isValid_checkSampleKey,
    isValid_adviseLocal, !isValid_print, isValid_reportAuth,
    isValid_detectProvider, !isValid_print, isValid_checkAuth,
    isValid_loop, loop_verdict.
  cbn [isValid andb]. by rewrite andb_diag.
Qed.

(** The conditions of the script on the variables, as propositions. *)
Definition validKey (envVars : gmap string string) : Prop :=
  exists k, envVars !! "VITE_GEMINI_API_KEY" = Some k
            /\ k <> EmptyString /\ k <> "your_api_key_here"
            /\ JS.includes k "demo" = false.

Definition tokenSet (envVars : gmap string string) : Prop :=
  exists t, envVars !! "VITE_API_TOKEN" = Some t /\ t <> EmptyString.

Definition demoKey (envVars : gmap string string) : Prop :=
  exists k, envVars !! "VITE_GEMINI_API_KEY" = Some k /\ JS.includes k "demo" = true.

Lemma hasApiKey_spec envVars : hasApiKey envVars = true <-> validKey envVars.
Proof.
  unfold hasApiKey, validKey. destruct (envVars !! "VITE_GEMINI_API_KEY") as [k|].
  - rewrite !andb_true_iff, !negb_true_iff, truthy_true, String.eqb_neq. split.
    + intros [[H1 H2] H3]. by exists k.
    + intros (k' & [= <-] & H1 & H2 & H3). done.
  - split; [done|]. by intros (k & [=] & _).
Qed.

Lemma hasApiToken_spec envVars :
  map_Forall (fun _ v => trimmed v) envVars ->
  hasApiToken envVars = true <-> tokenSet envVars.
Proof.
  intros Htrim. unfold hasApiToken, tokenSet.
  destruct (envVars !! "VITE_API_TOKEN") as [t|] eqn:E.
  - rewrite (trimmed_truthy t) by (by eapply Htrim). rewrite andb_diag, truthy_true.
    split; [intros H; by exists t | by intros (t' & [= <-] & H)].
  - split; [done|]. by intros (t & [=] & _).
Qed.

Lemma sampleKey_spec envVars : sampleKey envVars = true <-> demoKey envVars.
Proof.
  unfold sampleKey, demoKey. destruct (envVars !! "VITE_GEMINI_API_KEY") as [k|].
  - rewrite andb_true_iff. split.
    + intros [_ H]. by exists k.
    + intros (k' & [= <-] & H). split; [|done]. by destruct k.
  - split; [done|]. by intros (k & [=] & _).
Qed.

(** A statement of the script keeps what was printed before it. *)
Definition keeps (f : Run -> Run) : Prop :=
  forall r line, line ∈ stdout r -> line ∈ stdout (f r).

Lemma keeps_print l : keeps (print l).
Proof. intros r line H. unfold print. cbn. apply elem_of_app. by left. Qed.

Lemma keeps_detectProvider baseUrl : keeps (detectProvider baseUrl).
Proof.
  intros r line H. unfold detectProvider.
  repeat case_match; by repeat apply keeps_print.
Qed.

Lemma keeps_reportAuth envVars : keeps (reportAuth envVars).
Proof.
  intros r line H. unfold reportAuth. repeat case_match; by apply keeps_print.
Qed.

Lemma keeps_adviseLocal baseUrl : keeps (adviseLocal baseUrl).
Proof.
  intros r line H. unfold adviseLocal. case_match; [by apply keeps_print|done].
Qed.

Lemma keeps_checkSampleKey envVars : keeps (checkSampleKey envVars).
Proof.
  intros r line H. unfold checkSampleKey. repeat case_match; try done.
  by apply (keeps_print _ r).
Qed.

Lemma keeps_verdict : keeps verdict.
Proof.
  intros r line H. unfold verdict. case_match; by repeat apply keeps_print.
Qed.

Definition priorityLine : string :=
  cyan "ℹ️  信息：同时配置了API Key和API Token，将优先使用API Token".

Lemma priority_reported (envContent : string) :
  hasApiKey (parseEnv envContent) = true ->
  hasApiToken (parseEnv envContent) = true ->
  priorityLine ∈ stdout (validate envContent).
Proof.
  intros Hk Ht. unfold validate. cbv zeta.
  apply keeps_verdict. do 3 apply keeps_print.
  apply keeps_checkSampleKey, keeps_adviseLocal. do 2 apply keeps_print.
  apply keeps_reportAuth, keeps_detectProvider. do 2 apply keeps_print.
  unfold checkAuth. rewrite Hk, Ht. cbn [negb andb].
  unfold print. cbn [stdout]. apply elem_of_app. right.
  by apply list_elem_of_singleton.
Qed.

End ValidateEnvFacts.

(** What the claim gives as the cases of failure: no [.env], or neither a
    valid API key nor a non-empty API token. *)
Definition claimedFailure (envFile : option string) : Prop :=
  envFile = None
  \/ exists envContent,
       envFile = Some envContent
       /\ ~ ValidateEnvFacts.validKey (ValidateEnv.parseEnv envContent)
       /\ ~ ValidateEnvFacts.tokenSet (ValidateEnv.parseEnv envContent).

Definition sampleKeyEnv : string :=
  "VITE_GEMINI_API_KEY=demo-key
VITE_API_TOKEN=tok123".

(** C8, as stated, fails for a [.env] that holds a sample API key next to an
    API token: a token is configured, and the script still exits with 1. *)
Lemma C8_counterexample :
  ValidateEnv.parseEnv sampleKeyEnv !! "VITE_API_TOKEN" = Some "tok123"
  /\ ValidateEnv.parseEnv sampleKeyEnv !! "VITE_GEMINI_API_KEY" = Some "demo-key"
  /\ snd (ValidateEnv.main (Some sampleKeyEnv)) = 1%Z
  /\ ~ claimedFailure (Some sampleKeyEnv).
Proof.
  split; [vm_compute; reflexivity|]. split; [vm_compute; reflexivity|].
  split; [vm_compute; reflexivity|].
  intros [H | (envContent & [= <-] & _ & Htoken)]; [done|].
  apply Htoken. exists "tok123". split; [vm_compute; reflexivity | done].
Qed.

(** C8, amended. The script exits with status 1 if and only if [.env] is
    missing, or neither a valid API key (set, not [your_api_key_here], not
    containing [demo]) nor a non-empty API token is configured, or the API key
    contains [demo]; otherwise it ends with status 0.  When a valid key and a
    token are both configured it passes and prints that the API token takes
    priority. *)
Theorem C8_exit_status_amended (envFile : option string) :
  (snd (ValidateEnv.main envFile) = 1%Z
   <-> envFile = None
       \/ exists envContent,
            envFile = Some envContent
            /\ ((~ ValidateEnvFacts.validKey (ValidateEnv.parseEnv envContent)
                 /\ ~ ValidateEnvFacts.tokenSet (ValidateEnv.parseEnv envContent))
                \/ ValidateEnvFacts.demoKey (ValidateEnv.parseEnv envContent)))
  /\ (snd (ValidateEnv.main envFile) = 0%Z \/ snd (ValidateEnv.main envFile) = 1%Z)
  /\ (forall envContent,
        envFile = Some envContent ->
        ValidateEnvFacts.validKey (ValidateEnv.parseEnv envContent) ->
        ValidateEnvFacts.tokenSet (ValidateEnv.parseEnv envContent) ->
        snd (ValidateEnv.main envFile) = 0%Z
        /\ ValidateEnvFacts.priorityLine ∈ fst (ValidateEnv.main envFile)).
Proof.
  destruct envFile as [envContent|]; cbn [ValidateEnv.main fst snd].
  - pose proof (ValidateEnvFacts.parseEnv_trimmed envContent) as Htrim.
    pose proof (ValidateEnvFacts.hasApiKey_spec (ValidateEnv.parseEnv envContent)) as Hk.
    pose proof (ValidateEnvFacts.hasApiToken_spec _ Htrim) as Ht.
    pose proof (ValidateEnvFacts.sampleKey_spec (ValidateEnv.parseEnv envContent)) as Hs.
    rewrite ValidateEnvFacts.isValid_validate.
    split; [|split].
    + split.
      * intros Hexit. right. exists envContent. split; [done|].
        destruct (ValidateEnvFacts.sampleKey _); [right; by apply Hs|].
        left. destruct (ValidateEnv.hasApiKey _); [done|].
        destruct (ValidateEnv.hasApiToken _); [done|].
        split; [intros H; by apply Hk in H | intros H; by apply Ht in H].
      * intros [[=] | (c & [= <-] & [[H1 H2] | H3])].
        -- destruct (ValidateEnv.hasApiKey _); [exfalso; by apply H1, Hk|].
           destruct (ValidateEnv.hasApiToken _); [exfalso; by apply H2, Ht|]. done.
        -- apply Hs in H3. rewrite H3. by rewrite andb_false_r.
    + destruct (_ && _); [by left | by right].
    + intros c [= <-] Hvk Hts.
      apply Hk in Hvk. apply Ht in Hts.
      assert (Hs' : ValidateEnvFacts.sampleKey (ValidateEnv.parseEnv envContent) = false).
      { destruct (ValidateEnvFacts.sampleKey _) eqn:E; [|done].
        destruct (proj1 Hs eq_refl) as (k & Hlook & Hdemo).
        unfold ValidateEnv.hasApiKey in Hvk. rewrite Hlook, Hdemo in Hvk.
        by rewrite andb_false_r in Hvk. }
      rewrite Hvk, Hts, Hs'. split; [done|].
      by apply ValidateEnvFacts.priority_reported.
  - split; [by split; [left|]|]. split; [by right|]. by intros c [=].
Qed.

Definition bothEnv : string :=
  "# credentials
VITE_GEMINI_API_KEY=AIza-key
VITE_API_TOKEN=tok123".

Lemma C8_exit_status_amended_witness :
  snd (ValidateEnv.main (Some bothEnv)) = 0%Z
  /\ ValidateEnvFacts.priorityLine ∈ fst (ValidateEnv.main (Some bothEnv)).
Proof.
  apply (proj2 (proj2 (C8_exit_status_amended (Some bothEnv))) bothEnv eq_refl).
  - exists "AIza-key". split; [vm_compute; reflexivity|].
    split; [done|]. split; [done|]. reflexivity.
  - exists "tok123". split; [vm_compute; reflexivity | done].
Defined.

(** ** Checks on concrete inputs *)

Example includes_openai :
  JS.includes "https://api.openai.com" "openai.com" = true
  /\ JS.includes "https://api.cometapi.com" "openai.com" = false.
Proof. split; reflexivity. Qed.

Example trim_ascii : JS.trim "  a b	 " = "a b".
Proof. reflexivity. Qed.

(** U+00A0 before and U+3000 after: both are trimmed. *)
Example trim_unicode :
  JS.trim (String (ascii_of_nat 194) (String (ascii_of_nat 160)
             ("a" +:+ String (ascii_of_nat 227) (String (ascii_of_nat 128)
                        (String (ascii_of_nat 128) EmptyString)))))
  = "a".
Proof. reflexivity. Qed.

Example split_equals : JS.split "=" "A=b=c" = ["A"; "b"; "c"].
Proof. reflexivity. Qed.

Example parse_env_line :
  ValidateEnv.parseEnv "  VITE_API_TOKEN = a=b  " !! "VITE_API_TOKEN" = Some "a=b".
Proof. vm_compute. reflexivity. Qed.

Example status_text : pretty 404%Z = "404".
Proof. reflexivity. Qed.

Example missing_env_exit : snd (ValidateEnv.main None) = 1%Z.
Proof. reflexivity. Qed.

Example gemini_endpoint :
  endpointFor plainConfig
  = "/v1beta/models/gemini-2.5-flash-image-preview:generateContent".
Proof. reflexivity. Qed.

Example quota_is_printed :
  existsb mentionsQuota
    (console (snd (settle parseRetryBody noParse outOfQuota plainConfig
                          (Generate catRequest) emptyWorld)))
  = true.
Proof. vm_compute. reflexivity. Qed.

(** * Further properties of the service *)

(** ** What the payload carries *)

Lemma prefix_append (s b : string) : String.prefix s (s +:+ b) = true.
Proof.
  induction s as [|c s IH]; simpl; [by destruct b|].
  destruct (ascii_dec c c); [done|congruence].
Qed.

Lemma includes_prefix (s sub : string) :
  String.prefix sub s = true -> JS.includes s sub = true.
Proof. intros H. destruct s; simpl in *; by rewrite H. Qed.

Lemma includes_append_r (a s sub : string) :
  JS.includes s sub = true -> JS.includes (a +:+ s) sub = true.
Proof.
  intros H. induction a as [|c a IH]; [done|].
  change (JS.includes (String c a +:+ s) sub)
    with (String.prefix sub (String c (a +:+ s)) || JS.includes (a +:+ s) sub).
  rewrite IH. apply orb_true_r.
Qed.

(** A text built around [sub] includes it. *)
Lemma includes_middle (a sub b : string) : JS.includes (a +:+ sub +:+ b) sub = true.
Proof. apply includes_append_r, includes_prefix, prefix_append. Qed.

Definition textOfFirstPart (payload : APIRequestPayload) : option string :=
  match contents payload with
  | content :: _ =>
      match parts content with
      | part :: _ => text part
      | [] => None
      end
  | [] => None
  end.

(** X1. The text the user gives reaches the provider unchanged: the first
    part of the payload is the prompt itself for [generateImage], and a text
    that includes the instruction, respectively the query, verbatim for
    [editImage] and [segmentImage]. *)
Theorem X1_user_text_is_sent
    (parse : string -> JSError + ErrorObject)
    (parseS : string -> JSError + SegmentationResponse)
    (net : Network) (config : APIConfig) (w : World)
    (g : GenerationRequest) (e : EditRequest) (s : SegmentationRequest) :
  (exists rq, sent (snd (generateImage parse net config g w)) = sent w ++ [rq]
              /\ textOfFirstPart (body rq) = Some (prompt g))
  /\ (exists rq t, sent (snd (editImage parse net config e w)) = sent w ++ [rq]
                   /\ textOfFirstPart (body rq) = Some t
                   /\ JS.includes t (instruction e) = true)
  /\ (exists rq t, sent (snd (segmentImage parse parseS net config s w)) = sent w ++ [rq]
                   /\ textOfFirstPart (body rq) = Some t
                   /\ JS.includes t (query s) = true).
Proof.
  split; [|split].
  - eexists. split.
    + destruct (run_from _ w (framed_generateImage parse net config g)) as (_ & _ & ->).
      by rewrite requested_generateImage.
    + cbn [body requestFor]. unfold generatePayload, textOfFirstPart. cbv zeta.
      cbn [contents]. by rewrite addReferenceImages_parts.
  - eexists. exists (buildEditPrompt e). split; [|split].
    + destruct (run_from _ w (framed_editImage parse net config e)) as (_ & _ & ->).
      by rewrite requested_editImage.
    + cbn [body requestFor]. unfold editPayload, textOfFirstPart. cbv zeta.
      cbn [contents]. rewrite addReferenceImages_parts.
      destruct (maskImage e) as [m|]; [destruct (JS.truthy m)|]; reflexivity.
    + unfold buildEditPrompt. cbv zeta. apply includes_middle.
  - eexists. exists (segmentPrompt s). split; [|split].
    + destruct (run_from _ w (framed_segmentImage parse parseS net config s))
        as (_ & _ & ->).
      by rewrite requested_segmentImage.
    + reflexivity.
    + unfold segmentPrompt. apply includes_middle.
Qed.

(** A request with another seed. *)
Definition withSeed (g : GenerationRequest) (seed : option Q) : GenerationRequest :=
  {| prompt := prompt g; referenceImages := referenceImages g;
     temperature := temperature g; seed := seed |}.

Definition withEditSeed (e : EditRequest) (seed : option Q) : EditRequest :=
  {| instruction := instruction e; originalImage := originalImage e;
     edit_referenceImages := edit_referenceImages e; maskImage := maskImage e;
     edit_temperature := edit_temperature e; edit_seed := seed |}.

(** X2. The seed of a request is never used: [generateImage] and [editImage]
    send the same request, print the same lines and settle alike whatever the
    seed; of the options only the temperature reaches the payload, with
    [candidateCount] 1 and the response modalities TEXT and IMAGE. *)
Theorem X2_seed_is_ignored
    (parse : string -> JSError + ErrorObject) (net : Network) (config : APIConfig)
    (w : World) (g : GenerationRequest) (e : EditRequest) (seed : option Q) :
  generateImage parse net config (withSeed g seed) w = generateImage parse net config g w
  /\ editImage parse net config (withEditSeed e seed) w = editImage parse net config e w
  /\ generationConfig (generatePayload g)
     = Some {| config_temperature := temperature g; candidateCount := Some 1%Z;
               responseModalities := Some ["TEXT"; "IMAGE"] |}
  /\ generationConfig (editPayload e)
     = Some {| config_temperature := edit_temperature e; candidateCount := Some 1%Z;
               responseModalities := Some ["TEXT"; "IMAGE"] |}.
Proof.
  split; [|split; [|split]].
  - rewrite !generateImage_unfold. reflexivity.
  - rewrite !editImage_unfold. reflexivity.
  - reflexivity.
  - unfold editPayload. cbv zeta.
    destruct (maskImage e) as [m|]; [destruct (JS.truthy m)|]; reflexivity.
Qed.

(** X3. An empty [referenceImages] array and an empty [maskImage] string count
    as absent: the methods behave as if the field were missing. *)
Theorem X3_empty_fields_are_absent
    (parse : string -> JSError + ErrorObject) (net : Network) (config : APIConfig)
    (w : World) (p i o : string) (t s : option Q) :
  generateImage parse net config
    {| prompt := p; referenceImages := Some []; temperature := t; seed := s |} w
  = generateImage parse net config
      {| prompt := p; referenceImages := None; temperature := t; seed := s |} w
  /\ editImage parse net config
       {| instruction := i; originalImage := o; edit_referenceImages := Some [];
          maskImage := Some EmptyString; edit_temperature := t; edit_seed := s |} w
     = editImage parse net config
         {| instruction := i; originalImage := o; edit_referenceImages := None;
            maskImage := None; edit_temperature := t; edit_seed := s |} w.
Proof. split; [rewrite !generateImage_unfold | rewrite !editImage_unfold]; reflexivity. Qed.

(** ** What the methods return *)

Lemma resolved_by_reader {A} parse net config endpoint payload
    (reader : APIResponse -> Async A) label message (a : A) :
  (forall response, framed (reader response)) ->
  outcome (try_catch (bind (callAPI parse net config endpoint payload) reader)
                     (rethrow label message)) = Resolved a ->
  exists response, outcome (reader response) = Resolved a.
Proof.
  intros Hf. rewrite outcome_guarded, outcome_bind by eauto with framed.
  destruct (outcome (callAPI _ _ _ _ _)) as [response|]; [|done].
  destruct (outcome (reader response)) as [a'|] eqn:E; [|done].
  intros [= <-]. by exists response.
Qed.

Lemma imageOf_truthy (part : ResponsePart) (image : string) :
  imageOf part = Some image -> image <> EmptyString.
Proof.
  unfold imageOf. repeat case_match; try done. intros [= <-]. by destruct s.
Qed.

Lemma readImages_non_empty (response : APIResponse) (images : list string) :
  outcome (readImages response) = Resolved images ->
  Forall (fun image => image <> EmptyString) images
  /\ (candidateParts response = None -> (length images <= 1)%nat).
Proof.
  rewrite outcome_readImages.
  destruct (candidateParts response) as [parts|].
  - intros [= <-]. split; [|done]. apply Forall_forall. intros image Hin.
    apply list_elem_of_omap in Hin as (part & _ & Hpart).
    by eapply imageOf_truthy.
  - destruct (firstChoice response) as [choice|]; [|done].
    intros [= <-]. unfold contentOf. split.
    + repeat case_match; try done. repeat constructor. by destruct s.
    + intros _. repeat case_match; simpl; lia.
Qed.

(** X4. Whenever [generateImage] or [editImage] resolves, every string of
    the array it resolves with is non-empty. *)
Theorem X4_images_are_non_empty
    (parse : string -> JSError + ErrorObject) (net : Network) (config : APIConfig)
    (w : World) (g : GenerationRequest) (e : EditRequest) (images : list string) :
  fst (generateImage parse net config g w) = Resolved images
  \/ fst (editImage parse net config e w) = Resolved images ->
  Forall (fun image => image <> EmptyString) images.
Proof.
  intros [H | H].
  - destruct (run_from _ w (framed_generateImage parse net config g)) as (Hfst & _).
    rewrite Hfst, generateImage_unfold in H.
    apply resolved_by_reader in H as [response H]; [|eauto with framed].
    by apply readImages_non_empty in H as [H _].
  - destruct (run_from _ w (framed_editImage parse net config e)) as (Hfst & _).
    rewrite Hfst, editImage_unfold in H.
    apply resolved_by_reader in H as [response H]; [|eauto with framed].
    by apply readImages_non_empty in H as [H _].
Qed.

Lemma X4_images_are_non_empty_witness :
  fst (generateImage noParse (replying imageReply) plainConfig catRequest emptyWorld)
  = Resolved ["QUJD"]
  /\ Forall (fun image => image <> EmptyString) ["QUJD"].
Proof.
  split; [vm_compute; reflexivity|].
  apply (X4_images_are_non_empty noParse (replying imageReply) plainConfig emptyWorld
           catRequest hatRequest ["QUJD"]).
  left. vm_compute. reflexivity.
Defined.

(** ** The request, once more *)

Lemma chosenHeaders_fixed config :
  chosenHeaders config !! "Content-Type" = Some "application/json"
  /\ chosenHeaders config !! "Cookie"
     = if JS.includes (baseUrl config) "googleapis.com"
          && token_given (apiToken config)
          && JS.includes (token_text (apiToken config)) "SAPISID"
       then Some (token_text (apiToken config)) else None.
Proof.
  unfold chosenHeaders, outcome, chooseAuth.
  destruct (JS.includes (baseUrl config) "googleapis.com"); cbn [andb].
  - destruct (token_given (apiToken config)
              && JS.includes (token_text (apiToken config)) "SAPISID");
      run_step; by simplify_map_eq.
  - cbv zeta. destruct (JS.truthy _ && negb _); run_step; [|by simplify_map_eq].
    destruct (JS.startsWith _ _ || JS.startsWith _ _); [|by simplify_map_eq].
    destruct (JS.startsWith _ _); by simplify_map_eq.
Qed.

(** X5. Every request of [callAPI] is a POST of the payload, unchanged, with
    the header [Content-Type: application/json]; it carries a [Cookie] header,
    set to the API token, exactly when the base URL contains [googleapis.com]
    and the token is not blank and contains [SAPISID]. *)
Theorem X5_request_shape
    (parse : string -> JSError + ErrorObject) (net : Network) (config : APIConfig)
    (endpoint : string) (payload : APIRequestPayload) (w : World) :
  exists rq,
    sent (snd (callAPI parse net config endpoint payload w)) = sent w ++ [rq]
    /\ method rq = "POST"
    /\ body rq = payload
    /\ headers rq !! "Content-Type" = Some "application/json"
    /\ headers rq !! "Cookie"
       = if JS.includes (baseUrl config) "googleapis.com"
            && token_given (apiToken config)
            && JS.includes (token_text (apiToken config)) "SAPISID"
         then Some (token_text (apiToken config)) else None.
Proof.
  exists (requestFor config endpoint payload).
  destruct (chosenHeaders_fixed config) as [Hct Hcookie].
  repeat split; try done.
  destruct (run_from _ w (framed_callAPI parse net config endpoint payload))
    as (_ & _ & ->).
  by rewrite callAPI_requested.
Qed.

(** X6. [getAuthInfo] announces the cookie exactly when [callAPI] sends it:
    the method reported is [Google x-goog-api-key + Cookie] if and only if the
    request carries a [Cookie] header. *)
Theorem X6_cookie_is_announced (config : APIConfig) :
  auth_method (getAuthInfo config) = "Google x-goog-api-key + Cookie"
  <-> is_Some (chosenHeaders config !! "Cookie").
Proof.
  destruct (chosenHeaders_fixed config) as [_ ->].
  unfold getAuthInfo. cbv zeta.
  destruct (JS.includes (baseUrl config) "googleapis.com"); cbn [andb].
  - unfold token_given, token_text.
    destruct (apiToken config) as [t|]; cbn [default id andb auth_method].
    + destruct (JS.truthy t); cbn [andb];
        [|split; [done | by intros [? [=]]]].
      destruct (JS.truthy (JS.trim t)); cbn [andb];
        [|split; [done | by intros [? [=]]]].
      destruct (JS.includes t "SAPISID");
        [split; [by eexists | done] | split; [done | by intros [? [=]]]].
    + split; [done | by intros [? [=]]].
  - split; [|by intros [? [=]]].
    destruct (token_given (apiToken config)); [done|].
    by destruct (_ && _ && _).
Qed.

(** X7. Away from Google, when [getAuthInfo] announces authentication, the
    credential it announces (the token when it reports one, else the API key)
    is the value of the [Authorization] header of the request, provided that
    credential is not [demo-key]. *)
Theorem X7_announced_credential_is_sent
    (parse : string -> JSError + ErrorObject) (net : Network) (config : APIConfig)
    (endpoint : string) (payload : APIRequestPayload) (w : World) :
  JS.includes (baseUrl config) "googleapis.com" = false ->
  willUseAuth (getAuthInfo config) = true ->
  let credential :=
    if hasToken (getAuthInfo config) then token_text (apiToken config)
    else apiKey config in
  credential <> "demo-key" ->
  exists rq,
    sent (snd (callAPI parse net config endpoint payload w)) = sent w ++ [rq]
    /\ headers rq !! "Authorization" = Some credential
    /\ auth_method (getAuthInfo config)
       = if hasToken (getAuthInfo config) then "API Token (Authorization Bearer)"
         else "API Key (Authorization Bearer)".
Proof.
  intros Hurl Hwill credential Hdemo.
  exists (requestFor config endpoint payload). split.
  { destruct (run_from _ w (framed_callAPI parse net config endpoint payload))
      as (_ & _ & ->).
    by rewrite callAPI_requested. }
  cbn [headers requestFor]. rewrite (chosenHeaders_other config Hurl).
  subst credential. unfold getAuthInfo in *. cbv zeta in *. rewrite Hurl in *.
  destruct (token_given (apiToken config)) eqn:Ht; cbn [hasToken auth_method] in *.
  - assert (JS.truthy (token_text (apiToken config)) = true) as ->.
    { unfold token_given, token_text in *.
      destruct (apiToken config) as [t|]; [|done].
      by apply andb_true_iff in Ht as [Ht _]. }
    by apply String.eqb_neq in Hdemo as ->.
  - destruct (JS.truthy (apiKey config)); cbn [andb] in *; [|done].
    destruct (JS.truthy (JS.trim (apiKey config))); cbn [andb] in *; [|done].
    by destruct (String.eqb (apiKey config) "demo-key").
Qed.

Definition tokenConfig : APIConfig :=
  {| baseUrl := "https://api.cometapi.com"; apiKey := "demo-key";
     modelName := "gemini-2.5-flash-image-preview"; apiToken := Some "sk-abc" |}.

Lemma X7_announced_credential_is_sent_witness :
  exists rq,
    sent (snd (callAPI noParse offline tokenConfig "/v1beta/models/m:generateContent"
                       {| contents := []; generationConfig := None |} emptyWorld))
    = sent emptyWorld ++ [rq]
    /\ headers rq !! "Authorization" = Some "sk-abc"
    /\ auth_method (getAuthInfo tokenConfig) = "API Token (Authorization Bearer)".
Proof.
  apply (X7_announced_credential_is_sent noParse offline tokenConfig
           "/v1beta/models/m:generateContent"
           {| contents := []; generationConfig := None |} emptyWorld);
    [reflexivity | reflexivity | done].
Defined.

(** ** [debugConfig] *)

(** [v ? v.substring(0, 20) + '...' : '未设置'] *)
Definition shortened (v : option string) : string :=
  match v with
  | Some s => if JS.truthy s then JS.substring 0 20 s +:+ "..." else "未设置"
  | None => "未设置"
  end.

Definition debugConfig (env : ImportMetaEnv) (config : APIConfig) : Async unit :=
  let authInfo := getAuthInfo config in
  log (console_log [AStr "🔧 GeminiService 配置状态:"]) ;;;
  log (console_log [AStr "   Base URL:"; AStr (baseUrl config)]) ;;;
  log (console_log [AStr "   Model Name:"; AStr (modelName config)]) ;;;
  log (console_log [AStr "   API Key:"; AStr (shortened (Some (apiKey config)))]) ;;;
  log (console_log [AStr "   API Token:"; AStr (shortened (apiToken config))]) ;;;
  log (console_log [AStr "   认证方式:"; AStr (auth_method authInfo)]) ;;;
  log (console_log [AStr "   是否使用Authorization头部:";
                    AStr (if willUseAuth authInfo then "是" else "否")]) ;;;
  log (console_log [AStr "   环境变量检查:"]) ;;;
  log (console_log [AStr "     VITE_GEMINI_API_KEY:";
                    AStr (shortened (VITE_GEMINI_API_KEY env))]) ;;;
  log (console_log [AStr "     VITE_API_TOKEN:"; AStr (shortened (VITE_API_TOKEN env))]) ;;;
  log (console_log [AStr "     VITE_API_BASE_URL:";
                    AStr (or_default (VITE_API_BASE_URL env) "使用默认值")]) ;;;
  log (console_log [AStr "     VITE_MODEL_NAME:";
                    AStr (or_default (VITE_MODEL_NAME env) "使用默认值")]).

(** X8. With a base URL on [googleapis.com] and a valid API key (not blank,
    not [demo-key]), [debugConfig] prints that the Authorization header is
    used, while the request [callAPI] sends carries no [Authorization] header:
    the key travels in [x-goog-api-key].  [debugConfig] itself resolves and
    sends nothing. *)
Theorem X8_debug_reports_authorization_on_google
    (parse : string -> JSError + ErrorObject) (net : Network)
    (env : ImportMetaEnv) (config : APIConfig)
    (endpoint : string) (payload : APIRequestPayload) (w : World) :
  JS.includes (baseUrl config) "googleapis.com" = true ->
  JS.truthy (JS.trim (apiKey config)) = true ->
  apiKey config <> "demo-key" ->
  (exists before after,
     debugConfig env config w
     = (Resolved tt,
        extend w (before
                  ++ console_log [AStr "   是否使用Authorization头部:"; AStr "是"]
                  :: after) []))
  /\ (exists rq,
        sent (snd (callAPI parse net config endpoint payload w)) = sent w ++ [rq]
        /\ headers rq !! "Authorization" = None
        /\ headers rq !! "x-goog-api-key" = Some (apiKey config)).
Proof.
  intros Hurl Hkey Hdemo. split.
  - assert (Hwill : willUseAuth (getAuthInfo config) = true).
    { unfold getAuthInfo. cbv zeta. rewrite Hurl. cbn [willUseAuth].
      rewrite (truthy_trim _ Hkey), Hkey. cbn [andb].
      by apply String.eqb_neq in Hdemo as ->. }
    unfold debugConfig. cbv zeta. rewrite Hwill.
    eexists [_; _; _; _; _; _], [_; _; _; _; _].
    unfold bind, log, extend. cbn [console sent]. rewrite app_nil_r.
    by rewrite <- !app_assoc.
  - exists (requestFor config endpoint payload).
    destruct (chosenHeaders_google config Hurl) as [Hk Ha]. repeat split; try done.
    destruct (run_from _ w (framed_callAPI parse net config endpoint payload))
      as (_ & _ & ->).
    by rewrite callAPI_requested.
Qed.

Lemma X8_debug_reports_authorization_on_google_witness :
  (exists before after,
     debugConfig noEnv plainConfig emptyWorld
     = (Resolved tt,
        extend emptyWorld
          (before
           ++ console_log [AStr "   是否使用Authorization头部:"; AStr "是"]
           :: after) []))
  /\ (exists rq,
        sent (snd (callAPI noParse offline plainConfig "/v1beta/models/m:generateContent"
                           {| contents := []; generationConfig := None |} emptyWorld))
        = sent emptyWorld ++ [rq]
        /\ headers rq !! "Authorization" = None
        /\ headers rq !! "x-goog-api-key" = Some "AIza-key").
Proof.
  apply (X8_debug_reports_authorization_on_google noParse offline noEnv plainConfig
           "/v1beta/models/m:generateContent"
           {| contents := []; generationConfig := None |} emptyWorld);
    [reflexivity | reflexivity | done].
Defined.

(** ** Replies that are not ok *)

(** The lines [callAPI] prints before it calls [fetch]. *)
Definition announced (config : APIConfig) (endpoint : string) : list LogLine :=
  authLines config
  ++ [ console_log [AStr "📡 API请求详情:"];
       console_log [AStr "   URL:"; AStr (baseUrl config +:+ endpoint)];
       console_log
         [AStr "   Headers:";
          AHeaders
            (debug_copy "Cookie" 50 (chosenHeaders config)
               (debug_copy "x-goog-api-key" 20 (chosenHeaders config)
                  (debug_copy "Authorization" 30 (chosenHeaders config)
                     {[ "Content-Type" :=
                          default EmptyString (chosenHeaders config !! "Content-Type") ]})))] ].

(** The line printed for a reply that is not ok. *)
Definition failureLine (r : HttpResponse) (errorData : string) : LogLine :=
  console_error [AStr "❌ API调用失败:"; AFailure (status r) (statusText r) errorData].

Lemma callAPI_failed parse net config endpoint payload r errorData :
  net (requestFor config endpoint payload) = FetchResponse r ->
  ok r = false ->
  (status r =? 429)%Z = false ->
  response_text r = inr errorData ->
  outcome (callAPI parse net config endpoint payload)
  = Rejected (Error ("API call failed: " +:+ pretty (status r) +:+ " "
                     +:+ statusText r +:+ " - " +:+ errorData))
  /\ printed (callAPI parse net config endpoint payload)
     = announced config endpoint ++ [failureLine r errorData].
Proof.
  intros Hnet Hok Hstatus Htext.
  split; [unfold outcome | unfold printed]; run_callAPI;
    rewrite Hnet, Hok; run_more; rewrite Htext; run_more;
    rewrite Hstatus; [reflexivity|].
  cbn [negb]. cbv beta iota. cbn [console sent fst snd].
  unfold announced, failureLine. by rewrite <- !app_assoc.
Qed.

Lemma callAPI_unparsed parse net config endpoint payload r errorData e :
  net (requestFor config endpoint payload) = FetchResponse r ->
  status r = 429%Z ->
  response_text r = inr errorData ->
  parse errorData = inl e ->
  outcome (callAPI parse net config endpoint payload) = Rejected e
  /\ printed (callAPI parse net config endpoint payload)
     = announced config endpoint ++ [failureLine r errorData].
Proof.
  intros Hnet Hstatus Htext Hparse.
  assert (Hok : ok r = false) by (unfold ok; rewrite Hstatus; reflexivity).
  split; [unfold outcome | unfold printed]; run_callAPI;
    rewrite Hnet, Hok; run_more; rewrite Htext; run_more;
    rewrite Hstatus; cbn [Z.eqb Pos.eqb]; rewrite Hparse; run_more;
    [reflexivity|].
  cbn [negb]. cbv beta iota. cbn [console sent fst snd].
  unfold announced, failureLine. rewrite Hstatus. by rewrite <- !app_assoc.
Qed.

(** X9. For a reply whose status is outside 200..299 and is not 429, with a
    body that can be read, a method prints the status, the status text and the
    body, then the error [API call failed: <status> <statusText> - <body>],
    and rejects with its generic message; the body is not parsed. *)
Theorem X9_http_failure
    (parse : string -> JSError + ErrorObject)
    (parseS : string -> JSError + SegmentationResponse)
    (net : Network) (config : APIConfig) (w : World) (m : Method)
    (r : HttpResponse) (errorData : string) :
  net (requestFor config (endpointFor config) (payloadOf m)) = FetchResponse r ->
  ok r = false ->
  status r <> 429%Z ->
  response_text r = inr errorData ->
  settle parse parseS net config m w
  = (Some (Error (messageOf m)),
     extend w
       (announced config (endpointFor config)
        ++ [ failureLine r errorData;
             console_error
               [AStr (labelOf m);
                AError (Error ("API call failed: " +:+ pretty (status r) +:+ " "
                               +:+ statusText r +:+ " - " +:+ errorData))] ])
       [requestFor config (endpointFor config) (payloadOf m)]).
Proof.
  intros Hnet Hok Hstatus Htext.
  apply Z.eqb_neq in Hstatus.
  destruct (callAPI_failed parse net config _ _ r errorData Hnet Hok Hstatus Htext)
    as [Hout Hprinted].
  rewrite (method_rejects parse parseS net config m
             (Error ("API call failed: " +:+ pretty (status r) +:+ " "
                     +:+ statusText r +:+ " - " +:+ errorData)) w).
  - rewrite Hprinted. by rewrite <- !app_assoc.
  - destruct m; by apply call_rejects; eauto with framed.
Qed.

Definition serverError : HttpResponse :=
  {| status := 500; statusText := "Internal Server Error";
     response_text := inr "boom"; response_json := inl (SyntaxError "Unexpected token") |}.

Lemma X9_http_failure_witness :
  settle noParse noParse (fun _ => FetchResponse serverError) plainConfig
         (Edit hatRequest) emptyWorld
  = (Some (Error "Failed to edit image. Please try again."),
     extend emptyWorld
       (announced plainConfig (endpointFor plainConfig)
        ++ [ failureLine serverError "boom";
             console_error
               [AStr "Error editing image:";
                AError (Error "API call failed: 500 Internal Server Error - boom")] ])
       [requestFor plainConfig (endpointFor plainConfig) (editPayload hatRequest)]).
Proof.
  apply (X9_http_failure noParse noParse (fun _ => FetchResponse serverError) plainConfig
           emptyWorld (Edit hatRequest) serverError "boom");
    [reflexivity | reflexivity | done | reflexivity].
Defined.

(** X10. For a reply with status 429 whose body [JSON.parse] refuses, nothing
    about the quota is printed: after the line for the failed call a method
    prints the exception of [JSON.parse] and rejects with its generic
    message. *)
Theorem X10_rate_limit_unparsed
    (parse : string -> JSError + ErrorObject)
    (parseS : string -> JSError + SegmentationResponse)
    (net : Network) (config : APIConfig) (w : World) (m : Method)
    (r : HttpResponse) (errorData : string) (e : JSError) :
  net (requestFor config (endpointFor config) (payloadOf m)) = FetchResponse r ->
  status r = 429%Z ->
  response_text r = inr errorData ->
  parse errorData = inl e ->
  settle parse parseS net config m w
  = (Some (Error (messageOf m)),
     extend w
       (announced config (endpointFor config)
        ++ [ failureLine r errorData; console_error [AStr (labelOf m); AError e] ])
       [requestFor config (endpointFor config) (payloadOf m)]).
Proof.
  intros Hnet Hstatus Htext Hparse.
  destruct (callAPI_unparsed parse net config _ _ r errorData e Hnet Hstatus Htext Hparse)
    as [Hout Hprinted].
  rewrite (method_rejects parse parseS net config m e w).
  - rewrite Hprinted. by rewrite <- !app_assoc.
  - destruct m; by apply call_rejects; eauto with framed.
Qed.

Lemma X10_rate_limit_unparsed_witness :
  settle noParse noParse outOfQuota plainConfig (Segment carRequest) emptyWorld
  = (Some (Error "Failed to segment image. Please try again."),
     extend emptyWorld
       (announced plainConfig (endpointFor plainConfig)
        ++ [ failureLine quotaReply "RESOURCE_EXHAUSTED";
             console_error [AStr "Error segmenting image:";
                            AError (SyntaxError "Unexpected token")] ])
       [requestFor plainConfig (endpointFor plainConfig) (segmentPayload carRequest)]).
Proof.
  exact (X10_rate_limit_unparsed noParse noParse outOfQuota plainConfig emptyWorld
           (Segment carRequest) quotaReply "RESOURCE_EXHAUSTED"
           (SyntaxError "Unexpected token") eq_refl eq_refl eq_refl eq_refl).
Defined.

(** X11. For a reply with status 429 whose body parses but holds no
    [RetryInfo] detail with a non-empty [retryDelay], the delay a method
    prints, and puts in the message of the rate-limit error it prints, is
    [未知]. *)
Theorem X11_rate_limit_unknown_delay
    (parse : string -> JSError + ErrorObject)
    (parseS : string -> JSError + SegmentationResponse)
    (net : Network) (config : APIConfig) (w : World) (m : Method)
    (r : HttpResponse) (errorData : string) (errorObj : ErrorObject) :
  net (requestFor config (endpointFor config) (payloadOf m)) = FetchResponse r ->
  status r = 429%Z ->
  response_text r = inr errorData ->
  parse errorData = inr errorObj ->
  match findRetryInfo errorObj with
  | Some detail => retryDelay detail = None \/ retryDelay detail = Some EmptyString
  | None => True
  end ->
  exists before between,
    settle parse parseS net config m w
    = (Some (Error (messageOf m)),
       extend w
         (before
          ++ console_log [AStr "   - 建议等待时间:"; AStr "未知"]
          :: between
          ++ [console_error [AStr (labelOf m); AError (Error (quotaMessage "未知"))]])
         [requestFor config (endpointFor config) (payloadOf m)]).
Proof.
  intros Hnet Hstatus Htext Hparse Hnone.
  destruct (callAPI_429 parse net config _ _ r errorData errorObj
              Hnet Hstatus Htext Hparse) as [Hout Hline].
  assert (Hd : retryDelayOf (findRetryInfo errorObj) = "未知").
  { unfold retryDelayOf, or_default.
    destruct (findRetryInfo errorObj) as [detail|]; [|done].
    by destruct Hnone as [-> | ->]. }
  rewrite Hd in Hout, Hline. fold (quotaMessage "未知") in Hout.
  apply list_elem_of_split in Hline as (before & between & Hprinted).
  exists before, between.
  rewrite (method_rejects parse parseS net config m (Error (quotaMessage "未知"))).
  - rewrite Hprinted. by rewrite <- app_assoc.
  - destruct m; by apply call_rejects; eauto with framed.
Qed.

Definition quotaBody : ErrorObject :=
  {| error :=
       Some {| details :=
                 Some [ {| at_type := Some "type.googleapis.com/google.rpc.QuotaFailure";
                           retryDelay := None |} ] |} |}.

Lemma X11_rate_limit_unknown_delay_witness :
  exists before between,
    settle (fun _ => inr quotaBody) noParse outOfQuota plainConfig (Generate catRequest)
           emptyWorld
    = (Some (Error "Failed to generate image. Please try again."),
       extend emptyWorld
         (before
          ++ console_log [AStr "   - 建议等待时间:"; AStr "未知"]
          :: between
          ++ [console_error [AStr "Error generating image:";
                             AError (Error (quotaMessage "未知"))]])
         [requestFor plainConfig (endpointFor plainConfig) (generatePayload catRequest)]).
Proof.
  exact (X11_rate_limit_unknown_delay (fun _ => inr quotaBody) noParse outOfQuota
           plainConfig emptyWorld (Generate catRequest) quotaReply "RESOURCE_EXHAUSTED"
           quotaBody eq_refl eq_refl eq_refl eq_refl I).
Defined.

(** X12. The [RetryInfo] detail [callAPI] reads is the first detail of
    [error.details] whose ['@type'] includes [RetryInfo]: details before it
    have no ['@type'] or another one, details after it are not looked at. *)
Theorem X12_first_retry_info (info : ErrorInfo) (before after : list ErrorDetail)
    (detail : ErrorDetail) (type : string) :
  details info = Some (before ++ detail :: after) ->
  at_type detail = Some type ->
  JS.includes type "RetryInfo" = true ->
  Forall (fun d => match at_type d with
                   | Some t => JS.includes t "RetryInfo" = false
                   | None => True
                   end) before ->
  findRetryInfo {| error := Some info |} = Some detail.
Proof.
  intros Hdetails Htype Hincl Hbefore. unfold findRetryInfo. cbn [error].
  rewrite Hdetails. clear Hdetails.
  induction Hbefore as [|d before Hd _ IH]; cbn [app List.find].
  - by rewrite Htype, Hincl.
  - destruct (at_type d) as [t|]; [by rewrite Hd|done].
Qed.

Lemma X12_first_retry_info_witness :
  findRetryInfo
    {| error :=
         Some {| details :=
                   Some ([ {| at_type := None; retryDelay := Some "1s" |};
                           {| at_type := Some "type.googleapis.com/google.rpc.Help";
                              retryDelay := Some "2s" |} ]
                         ++ retryDetail
                         :: [ {| at_type := Some "RetryInfo"; retryDelay := Some "60s" |} ])
              |} |}
  = Some retryDetail.
Proof.
  apply (X12_first_retry_info
           {| details :=
                Some ([ {| at_type := None; retryDelay := Some "1s" |};
                        {| at_type := Some "type.googleapis.com/google.rpc.Help";
                           retryDelay := Some "2s" |} ]
                      ++ retryDetail
                      :: [ {| at_type := Some "RetryInfo"; retryDelay := Some "60s" |} ])
           |}
           [ {| at_type := None; retryDelay := Some "1s" |};
             {| at_type := Some "type.googleapis.com/google.rpc.Help";
                retryDelay := Some "2s" |} ]
           [ {| at_type := Some "RetryInfo"; retryDelay := Some "60s" |} ]
           retryDetail "type.googleapis.com/google.rpc.RetryInfo");
    [reflexivity | reflexivity | reflexivity | by repeat constructor].
Defined.

(** ** Services and their configurations *)

Module ServiceFacts.
Import Heap.

Lemma configOf_insert_fresh (this l : loc) (h : heap) (o : Obj) (c : ConfigObject) :
  configOf this h = Some c ->
  h !! l = None ->
  configOf this (<[l := o]> h) = Some c.
Proof.
  intros H Hfresh.
  destruct (HeapFacts.configOf_service _ _ _ H) as (l0 & Hthis & Hl0).
  unfold configOf.
  rewrite lookup_insert_ne by (intros ->; congruence). rewrite Hthis.
  rewrite lookup_insert_ne by (intros ->; congruence). by rewrite Hl0.
Qed.

Lemma configOf_alloc (this : loc) (h : heap) (o : Obj) (c : ConfigObject) :
  configOf this h = Some c ->
  configOf this (alloc o h).2 = Some c.
Proof.
  intros H. destruct (HeapFacts.alloc_fresh o h) as [Hfresh ->].
  by apply configOf_insert_fresh.
Qed.

(** [{ ...p, ...q }] for two partial configurations: a field that [q] holds,
    with a string or with [undefined], goes over the one of [p]. *)
Definition merge (p q : PartialAPIConfig) : PartialAPIConfig :=
  {| baseUrl' := match baseUrl' q with Some v => Some v | None => baseUrl' p end;
     apiKey' := match apiKey' q with Some v => Some v | None => apiKey' p end;
     modelName' := match modelName' q with Some v => Some v | None => modelName' p end;
     apiToken' := match apiToken' q with Some v => Some v | None => apiToken' p end |}.

Definition nothing : PartialAPIConfig :=
  {| baseUrl' := None; apiKey' := None; modelName' := None; apiToken' := None |}.

Lemma spread_spread (c : ConfigObject) (p q : PartialAPIConfig) :
  spread (spread c p) q = spread c (merge p q).
Proof.
  unfold spread, merge. cbn.
  destruct (baseUrl' q), (apiKey' q), (modelName' q), (apiToken' q); reflexivity.
Qed.

Lemma spread_twice (c : ConfigObject) (p : PartialAPIConfig) :
  spread (spread c p) p = spread c p.
Proof.
  unfold spread. cbn.
  destruct (baseUrl' p), (apiKey' p), (modelName' p), (apiToken' p); reflexivity.
Qed.

Lemma spread_nothing (c : ConfigObject) : spread c nothing = c.
Proof. by destruct c. Qed.

Lemma typed_store (c : APIConfig) : typed (store c) = Some c.
Proof. by destruct c. Qed.

End ServiceFacts.

(** X13. [new GeminiService(config)] creates a service at a new address whose
    configuration is the default one overridden by the fields that [config]
    holds (by [undefined] where [config] holds a field with that value), and
    leaves the configuration of every service that exists unchanged. *)
Theorem X13_constructor (env : ImportMetaEnv) (config : option PartialAPIConfig)
    (h : gmap Heap.loc Heap.Obj) :
  h !! (Heap.constructor env config h).1 = None
  /\ Heap.configOf (Heap.constructor env config h).1 (Heap.constructor env config h).2
     = Some (match config with
             | Some p => Heap.spread (Heap.store (defaultConfig env)) p
             | None => Heap.store (defaultConfig env)
             end)
  /\ forall other c,
       Heap.configOf other h = Some c ->
       Heap.configOf other (Heap.constructor env config h).2 = Some c.
Proof.
  unfold Heap.constructor. cbv zeta.
  set (c0 := match config with
             | Some p => Heap.spread (Heap.store (defaultConfig env)) p
             | None => Heap.store (defaultConfig env)
             end).
  destruct (HeapFacts.alloc_fresh (Heap.ConfigObj c0) h) as [Hf1 Hh1].
  destruct (Heap.alloc (Heap.ConfigObj c0) h) as [l h1] eqn:E1. cbn [fst snd] in *.
  destruct (HeapFacts.alloc_fresh (Heap.ServiceObj l) h1) as [Hf2 Hh2].
  destruct (Heap.alloc (Heap.ServiceObj l) h1) as [this h2] eqn:E2. cbn [fst snd] in *.
  subst h1 h2.
  assert (this <> l) by (intros ->; by rewrite lookup_insert_eq in Hf2).
  split; [|split].
  - by rewrite lookup_insert_ne in Hf2.
  - unfold Heap.configOf. rewrite lookup_insert_eq.
    rewrite lookup_insert_ne by done. by rewrite lookup_insert_eq.
  - intros other c Hother.
    apply ServiceFacts.configOf_insert_fresh; [|done].
    by apply ServiceFacts.configOf_insert_fresh.
Qed.

(** X14. [setConfig] on one service leaves the configuration of every other
    service unchanged. *)
Theorem X14_setConfig_is_local (this other : Heap.loc) (h : gmap Heap.loc Heap.Obj)
    (p : PartialAPIConfig) (c : Heap.ConfigObject) :
  other <> this ->
  Heap.configOf other h = Some c ->
  Heap.configOf other (Heap.setConfig this p h) = Some c.
Proof.
  intros Hne Hother.
  destruct (HeapFacts.configOf_service _ _ _ Hother) as (l & Hsvc & Hl).
  unfold Heap.configOf.
  rewrite (HeapFacts.setConfig_others this other h p _ Hne Hsvc).
  destruct (decide (l = this)) as [-> | Hl'].
  - unfold Heap.setConfig, Heap.configOf. rewrite Hl. by rewrite Hl.
  - by rewrite (HeapFacts.setConfig_others this l h p _ Hl' Hl).
Qed.

Definition twoServices : (Heap.loc * Heap.loc) * gmap Heap.loc Heap.Obj :=
  let '(a, h) := Heap.constructor noEnv None ∅ in
  let '(b, h) := Heap.constructor noEnv (Some keyOnly) h in
  ((a, b), h).

Lemma X14_setConfig_is_local_witness :
  Heap.configOf twoServices.1.2 twoServices.2
  = Some (Heap.spread (Heap.store (defaultConfig noEnv)) keyOnly)
  /\ Heap.configOf twoServices.1.2
       (Heap.setConfig twoServices.1.1
          {| baseUrl' := Some (Some "https://api.openai.com"); apiKey' := None;
             modelName' := None; apiToken' := None |}
          twoServices.2)
     = Some (Heap.spread (Heap.store (defaultConfig noEnv)) keyOnly).
Proof.
  split; [vm_compute; reflexivity|].
  apply X14_setConfig_is_local; [vm_compute; discriminate | vm_compute; reflexivity].
Defined.

(** X15. A configuration obtained from [getConfig] is a snapshot: a later
    [setConfig] changes the configuration of the service and not the object
    handed out before. *)
Theorem X15_getConfig_is_a_snapshot (this copy : Heap.loc)
    (h h' : gmap Heap.loc Heap.Obj) (c : Heap.ConfigObject) (p : PartialAPIConfig) :
  Heap.configOf this h = Some c ->
  Heap.getConfig this h = Some (copy, h') ->
  Heap.setConfig this p h' !! copy = Some (Heap.ConfigObj c)
  /\ Heap.configOf this (Heap.setConfig this p h') = Some (Heap.spread c p).
Proof.
  intros Hc Hget.
  destruct (HeapFacts.getConfig_copy this h c Hc) as (l & h0 & Hget' & Hfresh & -> & Hc').
  rewrite Hget in Hget'. injection Hget' as -> ->.
  split; [|by apply HeapFacts.configOf_setConfig].
  apply HeapFacts.setConfig_others; [|by rewrite lookup_insert_eq].
  destruct (HeapFacts.configOf_service _ _ _ Hc) as (l0 & Hthis & _).
  intros ->. congruence.
Qed.

Definition oneService : Heap.loc * gmap Heap.loc Heap.Obj :=
  Heap.constructor noEnv None ∅.

Definition snapshot : Heap.loc * gmap Heap.loc Heap.Obj :=
  default (1%positive, ∅) (Heap.getConfig oneService.1 oneService.2).

Lemma X15_getConfig_is_a_snapshot_witness :
  Heap.getConfig oneService.1 oneService.2 = Some snapshot
  /\ Heap.setConfig oneService.1 keyOnly snapshot.2 !! snapshot.1
     = Some (Heap.ConfigObj (Heap.store (defaultConfig noEnv)))
  /\ Heap.configOf oneService.1 (Heap.setConfig oneService.1 keyOnly snapshot.2)
     = Some (Heap.spread (Heap.store (defaultConfig noEnv)) keyOnly).
Proof.
  split; [vm_compute; reflexivity|].
  apply (X15_getConfig_is_a_snapshot oneService.1 snapshot.1 oneService.2 snapshot.2
           (Heap.store (defaultConfig noEnv)) keyOnly); vm_compute; reflexivity.
Defined.

(** X16. Calls of [setConfig] compose as the spread of their arguments: two
    calls amount to one call with the fields the later argument holds (with
    a string or with [undefined]) over those of the earlier one, the same
    call twice amounts to one, and a call with no field changes nothing of
    the configuration. *)
Theorem X16_setConfig_composes (this : Heap.loc) (h : gmap Heap.loc Heap.Obj)
    (c : Heap.ConfigObject) (p q : PartialAPIConfig) :
  Heap.configOf this h = Some c ->
  Heap.configOf this (Heap.setConfig this q (Heap.setConfig this p h))
  = Heap.configOf this (Heap.setConfig this (ServiceFacts.merge p q) h)
  /\ Heap.configOf this (Heap.setConfig this p (Heap.setConfig this p h))
     = Heap.configOf this (Heap.setConfig this p h)
  /\ Heap.configOf this (Heap.setConfig this ServiceFacts.nothing h) = Some c.
Proof.
  intros Hc.
  pose proof (HeapFacts.configOf_setConfig this h c p Hc) as Hp.
  split; [|split].
  - rewrite (HeapFacts.configOf_setConfig this _ _ q Hp).
    rewrite (HeapFacts.configOf_setConfig this h c _ Hc).
    by rewrite ServiceFacts.spread_spread.
  - rewrite (HeapFacts.configOf_setConfig this _ _ p Hp), Hp.
    by rewrite ServiceFacts.spread_twice.
  - rewrite (HeapFacts.configOf_setConfig this h c _ Hc).
    by rewrite ServiceFacts.spread_nothing.
Qed.

(** [{ apiToken: 'tok' }] *)
Definition tokenOnly : PartialAPIConfig :=
  {| baseUrl' := None; apiKey' := None; modelName' := None;
     apiToken' := Some (Some "tok") |}.

(** A token set and then supplied as [undefined] is gone; the key supplied
    with it stays. *)
Lemma X16_setConfig_composes_witness :
  ServiceFacts.merge tokenOnly keyWithoutToken = keyWithoutToken
  /\ Heap.configOf oneService.1
       (Heap.setConfig oneService.1 keyWithoutToken
          (Heap.setConfig oneService.1 tokenOnly oneService.2))
     = Some {| Heap.config_baseUrl := Some "https://generativelanguage.googleapis.com";
               Heap.config_apiKey := Some "AIza-key";
               Heap.config_modelName := Some "gemini-2.5-flash-image-preview";
               Heap.config_apiToken := None |}
  /\ Heap.configOf oneService.1
       (Heap.setConfig oneService.1 tokenOnly
          (Heap.setConfig oneService.1 tokenOnly oneService.2))
     = Heap.configOf oneService.1 (Heap.setConfig oneService.1 tokenOnly oneService.2)
  /\ Heap.configOf oneService.1
       (Heap.setConfig oneService.1 ServiceFacts.nothing oneService.2)
     = Some (Heap.store (defaultConfig noEnv)).
Proof.
  split; [reflexivity|].
  destruct (X16_setConfig_composes oneService.1 oneService.2
              (Heap.store (defaultConfig noEnv)) tokenOnly keyWithoutToken)
    as (Hcompose & Htwice & Hnothing); [vm_compute; reflexivity|].
  split; [|split; [exact Htwice | exact Hnothing]].
  rewrite Hcompose. vm_compute. reflexivity.
Defined.

(** X17. Whatever the environment holds, the default configuration has a
    non-empty base URL, API key and model name and a token that is a string;
    a variable set to the empty string counts as a variable not set. *)
Theorem X17_default_config (env : ImportMetaEnv) :
  baseUrl (defaultConfig env) <> EmptyString
  /\ apiKey (defaultConfig env) <> EmptyString
  /\ modelName (defaultConfig env) <> EmptyString
  /\ (exists t, apiToken (defaultConfig env) = Some t)
  /\ defaultConfig {| VITE_GEMINI_API_KEY := Some EmptyString;
                      VITE_API_BASE_URL := Some EmptyString;
                      VITE_MODEL_NAME := Some EmptyString;
                      VITE_API_TOKEN := Some EmptyString |}
     = defaultConfig noEnv.
Proof.
  unfold defaultConfig, or_default. cbn [baseUrl apiKey modelName apiToken].
  repeat split.
  - destruct (VITE_API_BASE_URL env) as [[|? ?]|]; done.
  - destruct (VITE_GEMINI_API_KEY env) as [[|? ?]|]; done.
  - destruct (VITE_MODEL_NAME env) as [[|? ?]|]; done.
  - by eexists.
Qed.

(** * Further properties of the configuration check *)

(** ** Splitting and joining *)

(** [s.includes(c)] for a character. *)
Fixpoint hasChar (c : ascii) (s : string) : bool :=
  match s with
  | EmptyString => false
  | String c' s' => Ascii.eqb c' c || hasChar c s'
  end.

Lemma split_not_nil (sep : ascii) (s : string) : JS.split sep s <> [].
Proof.
  destruct s as [|c s]; [done|]. cbn [JS.split].
  destruct (Ascii.eqb c sep); [done|]. by destruct (JS.split sep s).
Qed.

Lemma split_cons_other (sep c : ascii) (s : string) :
  Ascii.eqb c sep = false ->
  exists h t, JS.split sep s = h :: t /\ JS.split sep (String c s) = String c h :: t.
Proof.
  intros H. cbn [JS.split]. rewrite H.
  destruct (JS.split sep s) as [|h t] eqn:E; [by apply split_not_nil in E|].
  by exists h, t.
Qed.

Lemma split_without (sep : ascii) (s : string) :
  hasChar sep s = false -> JS.split sep s = [s].
Proof.
  induction s as [|c s IH]; [done|]. cbn [hasChar]. intros H.
  apply orb_false_iff in H as [Hc Hs].
  destruct (split_cons_other sep c s Hc) as (h & t & E1 & ->).
  rewrite (IH Hs) in E1. by injection E1 as <- <-.
Qed.

Lemma split_append (sep : ascii) (a b : string) :
  JS.split sep (a +:+ String sep b) = JS.split sep a ++ JS.split sep b.
Proof.
  induction a as [|c a IH].
  - change (EmptyString +:+ String sep b) with (String sep b).
    change (JS.split sep EmptyString) with [EmptyString].
    cbn [JS.split]. by rewrite Ascii.eqb_refl.
  - change (String c a +:+ String sep b) with (String c (a +:+ String sep b)).
    destruct (Ascii.eqb c sep) eqn:Hc.
    + cbn [JS.split]. rewrite Hc, IH. reflexivity.
    + destruct (split_cons_other sep c (a +:+ String sep b) Hc) as (h & t & E1 & ->).
      destruct (split_cons_other sep c a Hc) as (h' & t' & E2 & ->).
      rewrite IH, E2 in E1. injection E1 as <- <-. reflexivity.
Qed.

(** Joining what was split gives the string back. *)
Lemma join_split (sep : ascii) (s : string) :
  JS.join (String sep EmptyString) (JS.split sep s) = s.
Proof.
  unfold JS.join. induction s as [|c s IH]; [done|].
  destruct (Ascii.eqb c sep) eqn:Hc.
  - cbn [JS.split]. rewrite Hc. apply Ascii.eqb_eq in Hc as ->.
    destruct (JS.split sep s) as [|h t] eqn:E; [by apply split_not_nil in E|].
    cbn [String.concat] in *. by rewrite IH.
  - destruct (split_cons_other sep c s Hc) as (h & t & E & ->).
    rewrite E in IH. destruct t as [|y l]; cbn [String.concat] in *; by rewrite <- IH.
Qed.

Module ParseFacts.
Import ValidateEnv.

Lemma parseEnv_append (a line : string) :
  hasChar newline line = false ->
  parseEnv (a +:+ nl +:+ line) = parseLine (parseEnv a) line.
Proof.
  intros H. unfold parseEnv, nl.
  change (a +:+ String newline EmptyString +:+ line) with (a +:+ String newline line).
  rewrite split_append, (split_without _ _ H), fold_left_app. reflexivity.
Qed.

Lemma parseLine_assigns (envVars : gmap string string) (line k v : string) :
  JS.trim line = k +:+ "=" +:+ v ->
  k <> EmptyString ->
  hasChar "=" k = false ->
  JS.startsWith k "#" = false ->
  JS.trim k <> "__proto__" ->
  parseLine envVars line = <[JS.trim k := JS.trim v]> envVars.
Proof.
  intros Hline Hk Heq Hhash Hproto. unfold parseLine. cbv zeta. rewrite Hline.
  assert (Hsplit : JS.split "=" (k +:+ "=" +:+ v) = k :: JS.split "=" v).
  { change (k +:+ "=" +:+ v) with (k +:+ String "=" v).
    by rewrite split_append, (split_without _ _ Heq). }
  rewrite Hsplit.
  assert (JS.truthy (k +:+ "=" +:+ v) = true) as -> by (by destruct k).
  assert (JS.startsWith (k +:+ "=" +:+ v) "#" = false) as ->.
  { destruct k as [|c k]; [done|]. unfold JS.startsWith in *.
    change (String c k +:+ "=" +:+ v) with (String c (k +:+ "=" +:+ v)).
    cbn [String.prefix] in *.
    destruct (ascii_dec "#" c); [|done]. by destruct k. }
  assert (JS.truthy k = true) as -> by (by destruct k).
  cbn [andb negb].
  destruct (JS.split "=" v) as [|h t] eqn:E; [by apply split_not_nil in E|].
  cbn [length Nat.ltb Nat.leb].
  apply String.eqb_neq in Hproto as ->.
  rewrite <- E. change "=" with (String "="%char EmptyString) at 1.
  by rewrite join_split.
Qed.

Lemma parseLine_ignores (envVars : gmap string string) (line : string) :
  JS.trim line = EmptyString
  \/ JS.startsWith (JS.trim line) "#" = true
  \/ hasChar "=" (JS.trim line) = false
  \/ JS.startsWith (JS.trim line) "=" = true ->
  parseLine envVars line = envVars.
Proof.
  unfold parseLine. cbv zeta.
  intros [-> | [-> | [H | H]]]; [done | by rewrite andb_false_r | |].
  - rewrite (split_without _ _ H). cbn [length Nat.ltb Nat.leb].
    by rewrite !andb_false_r, ?if_same; repeat case_match.
  - destruct (JS.trim line) as [|c t]; [done|].
    cbn [JS.startsWith String.prefix] in H.
    destruct (ascii_dec "=" c) as [<- |]; [|by destruct t].
    cbn [JS.split]. cbn [Ascii.eqb Bool.eqb JS.truthy andb]. by case_match.
Qed.

End ParseFacts.

(** ** Reading [.env] *)

(** X18. A line (holding no line break) added at the end of [.env] that
    reads, once trimmed, [k=v], where [k] is not empty, holds no [=], does not
    start with [#] and is not [__proto__] once trimmed, assigns to the trimmed
    [k] all that follows the first [=], further [=] included, trimmed; it
    replaces what the lines before gave that variable, and leaves the other
    variables as they were. *)
Theorem X18_last_assignment_wins (a line k v : string) :
  hasChar ValidateEnv.newline line = false ->
  JS.trim line = k +:+ "=" +:+ v ->
  k <> EmptyString ->
  hasChar "=" k = false ->
  JS.startsWith k "#" = false ->
  JS.trim k <> "__proto__" ->
  ValidateEnv.parseEnv (a +:+ ValidateEnv.nl +:+ line) !! JS.trim k = Some (JS.trim v)
  /\ forall k', k' <> JS.trim k ->
       ValidateEnv.parseEnv (a +:+ ValidateEnv.nl +:+ line) !! k'
       = ValidateEnv.parseEnv a !! k'.
Proof.
  intros Hnl Hline Hk Heq Hhash Hproto.
  rewrite (ParseFacts.parseEnv_append a line Hnl).
  rewrite (ParseFacts.parseLine_assigns _ line k v Hline Hk Heq Hhash Hproto).
  split; [by rewrite lookup_insert_eq|].
  intros k' Hk'. by rewrite lookup_insert_ne.
Qed.

Lemma X18_last_assignment_wins_witness :
  ValidateEnv.parseEnv ("VITE_API_TOKEN=old" +:+ ValidateEnv.nl +:+ "  VITE_API_TOKEN = a=b  ")
  !! "VITE_API_TOKEN" = Some "a=b".
Proof.
  apply (X18_last_assignment_wins "VITE_API_TOKEN=old" "  VITE_API_TOKEN = a=b  "
           "VITE_API_TOKEN " " a=b");
    [reflexivity | reflexivity | done | reflexivity | reflexivity | by vm_compute].
Defined.

(** X19. A line added at the end of [.env] that is blank, or starts with [#]
    once trimmed, or holds no [=], or starts with [=] once trimmed, defines
    nothing: the variables read are those of the lines before. *)
Theorem X19_ignored_lines (a line : string) :
  hasChar ValidateEnv.newline line = false ->
  JS.trim line = EmptyString
  \/ JS.startsWith (JS.trim line) "#" = true
  \/ hasChar "=" (JS.trim line) = false
  \/ JS.startsWith (JS.trim line) "=" = true ->
  ValidateEnv.parseEnv (a +:+ ValidateEnv.nl +:+ line) = ValidateEnv.parseEnv a.
Proof.
  intros Hnl H. rewrite (ParseFacts.parseEnv_append a line Hnl).
  by apply ParseFacts.parseLine_ignores.
Qed.

Lemma X19_ignored_lines_witness :
  ValidateEnv.parseEnv ("VITE_API_TOKEN=tok123" +:+ ValidateEnv.nl +:+ "  # VITE_API_TOKEN=x")
  = ValidateEnv.parseEnv "VITE_API_TOKEN=tok123".
Proof.
  apply (X19_ignored_lines "VITE_API_TOKEN=tok123" "  # VITE_API_TOKEN=x");
    [reflexivity | right; left; reflexivity].
Defined.

(** ** What the script prints *)

Lemma validate_ends_with_verdict (envContent : string) :
  exists r, ValidateEnv.validate envContent = ValidateEnv.verdict r.
Proof. eexists. reflexivity. Qed.

Lemma verdict_last (r : ValidateEnv.Run) :
  last (ValidateEnv.stdout (ValidateEnv.verdict r))
  = Some (if ValidateEnv.isValid (ValidateEnv.verdict r)
          then ValidateEnv.cyan "运行命令: npm run dev"
          else ValidateEnv.red (ValidateEnv.bold "❌ 配置存在问题，请检查上述错误信息")).
Proof.
  rewrite ValidateEnvFacts.isValid_verdict. unfold ValidateEnv.verdict.
  destruct (ValidateEnv.isValid r);
    cbn [ValidateEnv.print ValidateEnv.stdout]; by rewrite last_snoc.
Qed.

(** X20. The last line the script prints agrees with its exit status: it is
    the command to run the application exactly when the status is 0, the
    notice that the configuration has problems when [.env] was read and the
    status is 1, and the advice to copy [.env.example] when [.env] is
    missing. *)
Theorem X20_last_line_agrees (envFile : option string) :
  (snd (ValidateEnv.main envFile) = 0%Z
   <-> last (fst (ValidateEnv.main envFile))
       = Some (ValidateEnv.cyan "运行命令: npm run dev"))
  /\ last (fst (ValidateEnv.main envFile))
     = Some (match envFile with
             | None => ValidateEnv.yellow "💡 请复制.env.example为.env并配置相应的环境变量"
             | Some _ =>
                 if (snd (ValidateEnv.main envFile) =? 0)%Z
                 then ValidateEnv.cyan "运行命令: npm run dev"
                 else ValidateEnv.red (ValidateEnv.bold "❌ 配置存在问题，请检查上述错误信息")
             end).
Proof.
  destruct envFile as [envContent|].
  2:{ split; [|reflexivity]. split; [done|].
      intros H. vm_compute in H. discriminate. }
  cbn [ValidateEnv.main fst snd].
  destruct (validate_ends_with_verdict envContent) as [r ->].
  rewrite verdict_last.
  destruct (ValidateEnv.isValid (ValidateEnv.verdict r)); cbn [Z.eqb];
    (split; [|reflexivity]).
  - by split.
  - split; [done|]. intros H. vm_compute in H. discriminate.
Qed.

(** X21. For a base URL that contains neither [googleapis.com] nor
    [openai.com], the script announces the OpenAI format (the endpoint
    [/v1/chat/completions] for [azure.com], an OpenAI-compatible format
    otherwise), while the service sends its requests to
    [/v1beta/models/{model}:generateContent]. *)
Theorem X21_announced_format_differs (envContent : string) (config : APIConfig)
    (parse : string -> JSError + ErrorObject) (net : Network) (w : World)
    (g : GenerationRequest) :
  or_default (ValidateEnv.parseEnv envContent !! "VITE_API_BASE_URL")
             "https://generativelanguage.googleapis.com" = baseUrl config ->
  JS.includes (baseUrl config) "googleapis.com" = false ->
  JS.includes (baseUrl config) "openai.com" = false ->
  (if JS.includes (baseUrl config) "azure.com"
   then ValidateEnv.cyan "   端点格式: /v1/chat/completions"
   else ValidateEnv.cyan "   将使用OpenAI兼容格式")
  ∈ fst (ValidateEnv.main (Some envContent))
  /\ exists rq,
       sent (snd (generateImage parse net config g w)) = sent w ++ [rq]
       /\ url rq = baseUrl config +:+ "/v1beta/models/" +:+ modelName config
                   +:+ ":generateContent".
Proof.
  intros Hurl Hgoogle Hopenai. split.
  - cbn [ValidateEnv.main fst]. unfold ValidateEnv.validate. cbv zeta. rewrite Hurl.
    apply ValidateEnvFacts.keeps_verdict. do 3 apply ValidateEnvFacts.keeps_print.
    apply ValidateEnvFacts.keeps_checkSampleKey.
    apply (ValidateEnvFacts.keeps_adviseLocal (baseUrl config)).
    do 2 apply ValidateEnvFacts.keeps_print.
    apply ValidateEnvFacts.keeps_reportAuth.
    unfold ValidateEnv.detectProvider. rewrite Hgoogle, Hopenai.
    destruct (JS.includes (baseUrl config) "azure.com");
      unfold ValidateEnv.print; cbn [ValidateEnv.stdout].
    + rewrite !elem_of_app. left. right. by apply list_elem_of_singleton.
    + rewrite !elem_of_app. right. by apply list_elem_of_singleton.
  - eexists. split.
    + destruct (run_from _ w (framed_generateImage parse net config g)) as (_ & _ & ->).
      by rewrite requested_generateImage.
    + cbn [url requestFor]. unfold endpointFor. cbv zeta. by rewrite Hopenai.
Qed.

Definition azureEnv : string := "VITE_API_BASE_URL=https://example.openai.azure.com
VITE_API_TOKEN=tok123".

Definition azureConfig : APIConfig :=
  {| baseUrl := "https://example.openai.azure.com"; apiKey := "demo-key";
     modelName := "gemini-2.5-flash-image-preview"; apiToken := Some "tok123" |}.

Lemma X21_announced_format_differs_witness :
  ValidateEnv.cyan "   端点格式: /v1/chat/completions"
  ∈ fst (ValidateEnv.main (Some azureEnv))
  /\ exists rq,
       sent (snd (generateImage noParse offline azureConfig catRequest emptyWorld))
       = sent emptyWorld ++ [rq]
       /\ url rq = "https://example.openai.azure.com" +:+ "/v1beta/models/"
                   +:+ "gemini-2.5-flash-image-preview" +:+ ":generateContent".
Proof.
  apply (X21_announced_format_differs azureEnv azureConfig noParse offline emptyWorld
           catRequest); vm_compute; reflexivity.
Defined.

(** ** The script and the service *)

(** X22. Take a [.env] that sets an API token and neither an API key nor a
    base URL, and let the service read the same variables.  The script passes,
    with status 0; the service, whose default base URL is on
    [googleapis.com], then sends the placeholder [demo-key] in
    [x-goog-api-key] and no [Authorization] header. *)
Theorem X22_token_only_passes_but_is_not_sent
    (envContent : string) (env : ImportMetaEnv)
    (parse : string -> JSError + ErrorObject) (net : Network)
    (endpoint : string) (payload : APIRequestPayload) (w : World) :
  VITE_GEMINI_API_KEY env = ValidateEnv.parseEnv envContent !! "VITE_GEMINI_API_KEY" ->
  VITE_API_BASE_URL env = ValidateEnv.parseEnv envContent !! "VITE_API_BASE_URL" ->
  ValidateEnv.parseEnv envContent !! "VITE_GEMINI_API_KEY" = None ->
  ValidateEnv.parseEnv envContent !! "VITE_API_BASE_URL" = None ->
  ValidateEnvFacts.tokenSet (ValidateEnv.parseEnv envContent) ->
  snd (ValidateEnv.main (Some envContent)) = 0%Z
  /\ exists rq,
       sent (snd (callAPI parse net (defaultConfig env) endpoint payload w))
       = sent w ++ [rq]
       /\ headers rq !! "x-goog-api-key" = Some "demo-key"
       /\ headers rq !! "Authorization" = None.
Proof.
  intros Hkey Hurl Hnokey Hnourl Htoken. split.
  - cbn [ValidateEnv.main snd]. rewrite ValidateEnvFacts.isValid_validate.
    apply (ValidateEnvFacts.hasApiToken_spec _
             (ValidateEnvFacts.parseEnv_trimmed envContent)) in Htoken.
    rewrite Htoken, orb_true_r. unfold ValidateEnvFacts.sampleKey. by rewrite Hnokey.
  - exists (requestFor (defaultConfig env) endpoint payload).
    assert (Hb : baseUrl (defaultConfig env) = "https://generativelanguage.googleapis.com").
    { unfold defaultConfig. cbn [baseUrl]. by rewrite Hurl, Hnourl. }
    assert (Hk : apiKey (defaultConfig env) = "demo-key").
    { unfold defaultConfig. cbn [apiKey]. by rewrite Hkey, Hnokey. }
    assert (Hg : JS.includes (baseUrl (defaultConfig env)) "googleapis.com" = true)
      by (by rewrite Hb).
    destruct (chosenHeaders_google _ Hg) as [Hx Ha].
    split; [|split; [|done]].
    + destruct (run_from _ w (framed_callAPI parse net (defaultConfig env) endpoint payload))
        as (_ & _ & ->).
      by rewrite callAPI_requested.
    + cbn [headers requestFor]. by rewrite Hx, Hk.
Qed.

Definition tokenOnlyEnv : string := "VITE_API_TOKEN=tok123".

Definition tokenOnlyVars : ImportMetaEnv :=
  {| VITE_GEMINI_API_KEY := None; VITE_API_BASE_URL := None;
     VITE_MODEL_NAME := None; VITE_API_TOKEN := Some "tok123" |}.

Lemma X22_token_only_passes_but_is_not_sent_witness :
  snd (ValidateEnv.main (Some tokenOnlyEnv)) = 0%Z
  /\ exists rq,
       sent (snd (callAPI noParse offline (defaultConfig tokenOnlyVars)
                          "/v1beta/models/m:generateContent"
                          {| contents := []; generationConfig := None |} emptyWorld))
       = sent emptyWorld ++ [rq]
       /\ headers rq !! "x-goog-api-key" = Some "demo-key"
       /\ headers rq !! "Authorization" = None.
Proof.
  apply (X22_token_only_passes_but_is_not_sent tokenOnlyEnv tokenOnlyVars noParse offline
           "/v1beta/models/m:generateContent"
           {| contents := []; generationConfig := None |} emptyWorld);
    try (vm_compute; reflexivity).
  exists "tok123". split; [vm_compute; reflexivity | done].
Defined.
